(** * Reactok karaoke: pitch estimation, lyric timeline and scoring loop

    A shallow embedding of the TypeScript sources

    - [components/KaraokeScreen.tsx]  (game loop, lyric timeline, star row),
    - [hooks/usePitchDetection.ts]    (autocorrelation pitch and loudness),
    - [hooks/useSongHistory.ts]       (history list),
    - [App.tsx]                       (LRC parsing and session start),

    followed by the properties of the written specification that they
    decide.

    Numbers.  A JavaScript [number] is an IEEE-754 binary64 value, which is
    exactly Rocq's primitive [float]: loudness, pitch, playback time and
    lyric times are [float]s, compared with the primitive [<?] and [<=?]
    (so that a NaN compares false with everything, as in JavaScript).
    Quantities that the program only ever uses as small integers (the
    score, the silence counter, array indices and lengths) are [Z]: they
    start at an integer and move by integer steps far below 2^53, where
    binary64 arithmetic on integers is exact. *)

From Stdlib Require Import ZArith List Bool Lia Floats Uint63 String Ascii.
From Stdlib Require Import Strings.Byte.
From Stdlib Require Import Sorted DecimalString.
Import ListNotations.

Set Warnings "-inexact-float".
Open Scope Z_scope.

(* ================================================================== *)
(** * Part I: the program                                              *)
(* ================================================================== *)

(** ** JavaScript numbers and arrays *)

Module Js.

(** An integer of the program read as a [number]. *)
Definition of_int (z : Z) : float :=
  if z <? 0 then (- of_uint63 (Uint63.of_Z (- z)))%float
  else of_uint63 (Uint63.of_Z z).

(** [x > y] and [x >= y] on numbers. *)
Definition gt (x y : float) : bool := (y <? x)%float.
Definition ge (x y : float) : bool := (y <=? x)%float.

(** [Math.max(x, y)] and [Math.min(x, y)]: NaN if either is NaN, and
    [+0] counts as larger than [-0]. *)
Definition Math_max2 (x y : float) : float :=
  if is_nan x || is_nan y then nan
  else if (x <? y)%float then y
  else if (y <? x)%float then x
  else if get_sign x then y else x.

Definition Math_min2 (x y : float) : float :=
  if is_nan x || is_nan y then nan
  else if (x <? y)%float then x
  else if (y <? x)%float then y
  else if get_sign x then x else y.

(** [Math.max(...xs)]; it is [-Infinity] on no arguments. *)
Definition Math_max (xs : list float) : float :=
  fold_left Math_max2 xs neg_infinity.

(** [xs[i]]: [undefined] (here [None]) outside the array. *)
Definition get {A : Type} (xs : list A) (i : Z) : option A :=
  if i <? 0 then None else nth_error xs (Z.to_nat i).

(** [xs.length]. *)
Definition length {A : Type} (xs : list A) : Z := Z.of_nat (List.length xs).

(** [xs.findIndex(p)]: the index of the first element satisfying [p],
    or [-1]. *)
Fixpoint findIndex_from {A : Type} (p : A -> bool) (xs : list A) (i : Z) : Z :=
  match xs with
  | [] => -1
  | x :: rest => if p x then i else findIndex_from p rest (i + 1)
  end.

Definition findIndex {A : Type} (p : A -> bool) (xs : list A) : Z :=
  findIndex_from p xs 0.

End Js.

(** ** types.ts *)

Record LyricLine : Type := mkLyricLine {
  text : string;
  startTime : float;
  endTime : float
}.

Record SongDetails : Type := mkSongDetails {
  artist : string;
  title : string;
  youtubeUrl : string
}.

Inductive AppState : Type := HOME | LOADING_LYRICS | KARAOKE | SCORE.

(** ** components/KaraokeScreen.tsx *)

Module KaraokeScreen.

(** The component state that the game loop reads and writes: the
    [useState] cells [currentTime], [score], [tomatoes] (the pending
    thrown tomatoes, by id) and the [useRef] cell [noSingingCounter]. *)
Record GameState : Type := mkGameState {
  currentTime : float;
  score : Z;
  noSingingCounter : Z;
  tomatoes : list float
}.

(** The initial values of those cells when the component mounts. *)
Definition initialState : GameState :=
  {| currentTime := 0; score := 0; noSingingCounter := 0; tomatoes := [] |}.

(** What one animation frame finds around it: the player's clock
    ([player?.getCurrentTime()], [None] while [player] is null), the
    values of the pitch-detection hook captured by the closure, and the
    fresh id [Date.now() + Math.random()] a tomato would get. *)
Record Frame : Type := mkFrame {
  playerTime : option float;
  isMicReady : bool;
  micVolume : float;
  userPitch : float;
  tomatoId : float
}.

(** [player?.getCurrentTime() ?? 0], the time a tick reads. *)
Definition newTimeOf (f : Frame) : float :=
  match playerTime f with Some t => t | None => 0%float end.

(** [songDuration]: the latest line end plus two seconds, or the
    [duration] prop when there are no lyrics. *)
Definition songDuration (lyrics : list LyricLine) (duration : float) : float :=
  if 0 <? Js.length lyrics
  then (Js.Math_max (map endTime lyrics) + 2)%float
  else duration.

(** The block commented "Scoring and Tomato logic" of [gameTick], for a
    given target pitch. *)
Definition scoringAndTomato (f : Frame) (targetPitch : float) (st : GameState)
  : GameState :=
  if isMicReady f then
    let st1 :=
      if Js.gt (micVolume f) 0.05 then
        let pitchDifference := PrimFloat.abs (userPitch f - targetPitch)%float in
        let sc :=
          if (pitchDifference <? 10)%float then score st + 5
          else if (pitchDifference <? 20)%float then score st + 2
          else score st in
        {| currentTime := currentTime st; score := sc;
           noSingingCounter := 0; tomatoes := tomatoes st |}
      else
        {| currentTime := currentTime st; score := score st;
           noSingingCounter := noSingingCounter st + 1;
           tomatoes := tomatoes st |} in
    if noSingingCounter st1 >? 120 then
      {| currentTime := currentTime st1; score := score st1;
         noSingingCounter := 0;
         tomatoes := tomatoes st1 ++ [tomatoId f] |}
    else st1
  else st.

(** The outcome of one [gameTick]: either the loop asks for the next
    animation frame, or the song is over and [onSongEnd] receives the
    score (the loop is not rescheduled). *)
Inductive TickResult : Type :=
| NextFrame (st : GameState)
| SongEnd (st : GameState) (finalScore : Z).

Definition stateOf (r : TickResult) : GameState :=
  match r with NextFrame st => st | SongEnd st _ => st end.

Section GameLoop.

(** [Math.sin], which the primitive floats do not provide. *)
Variable Math_sin : float -> float.

(** The synthetic reference curve. *)
Definition targetPitchAt (t : float) : float :=
  (50 + Math_sin (t * 1.5) * 30)%float.

(** [gameTick], for the [songDuration] captured by the effect. *)
Definition gameTick (duration : float) (f : Frame) (st : GameState)
  : TickResult :=
  let newTime := newTimeOf f in
  let st0 := {| currentTime := newTime; score := score st;
                noSingingCounter := noSingingCounter st;
                tomatoes := tomatoes st |} in
  if Js.ge newTime duration then SongEnd st0 (score st0)
  else NextFrame (scoringAndTomato f (targetPitchAt newTime) st0).

(** The loop over a sequence of animation frames: it stops at the first
    tick that ends the song. *)
Fixpoint gameLoop (duration : float) (frames : list Frame) (st : GameState)
  : TickResult :=
  match frames with
  | [] => NextFrame st
  | f :: rest =>
      match gameTick duration f st with
      | NextFrame st' => gameLoop duration rest st'
      | SongEnd st' sc => SongEnd st' sc
      end
  end.

End GameLoop.

(** The lyric timeline evaluated on each render. *)
Definition isActiveLine (currentTime lyricsOffset : float) (line : LyricLine)
  : bool :=
  Js.ge currentTime (startTime line - lyricsOffset)%float
  && (currentTime <? endTime line - lyricsOffset)%float.

Definition activeLineIndex (lyrics : list LyricLine)
  (currentTime lyricsOffset : float) : Z :=
  Js.findIndex (isActiveLine currentTime lyricsOffset) lyrics.

Definition activeLine (lyrics : list LyricLine)
  (currentTime lyricsOffset : float) : option LyricLine :=
  let i := activeLineIndex lyrics currentTime lyricsOffset in
  if negb (i =? -1) then Js.get lyrics i else None.

Definition futureLine (lyrics : list LyricLine)
  (currentTime lyricsOffset : float) : option LyricLine :=
  let i := activeLineIndex lyrics currentTime lyricsOffset in
  if i <? Js.length lyrics - 1 then Js.get lyrics (i + 1) else None.

(** [handleAdjustSync]. *)
Definition handleAdjustSync (lyricsOffset amount : float) : float :=
  (lyricsOffset + amount)%float.

(** [stars = Math.floor(score / 3000)]. *)
Definition stars (score : Z) : Z := score / 3000.

(** The row of five star icons: icon [i] is lit when [i < stars]. *)
Definition starRow (score : Z) : list bool :=
  map (fun i => i <? stars score) [0; 1; 2; 3; 4].

Definition litStars (score : Z) : Z :=
  Js.length (filter (fun lit => lit) (starRow score)).

(** [removeTomato]: the callback a tomato calls when its animation is
    over; [t.id !== id] is the negated number equality. *)
Definition removeTomato (id : float) (prev : list float) : list float :=
  filter (fun t => negb (t =? id)%float) prev.

End KaraokeScreen.

(** ** components/ScoreScreen.tsx *)

Module ScoreScreen.

(** The end-of-song screen has a star count of its own. *)
Definition stars (score : Z) : Z := Z.max 1 (Z.min 5 (score / 3000 + 1)).

Definition messages : list string :=
  [ "Precisa praticar mais!"%string;
    "Nada mal para começar!"%string;
    "Você está ficando bom nisso!"%string;
    "Apresentação incrível!"%string;
    "Você é uma Estrela do Karaokê!"%string ].

(** [messages[stars - 1]] *)
Definition message (score : Z) : option string :=
  Js.get messages (stars score - 1).

(** The row of five star icons of the score screen. *)
Definition starRow (score : Z) : list bool :=
  map (fun i => i <? stars score) [0; 1; 2; 3; 4].

End ScoreScreen.

(** ** hooks/usePitchDetection.ts *)

Module PitchDetection.

(** The integers [lo, lo+1, ..., hi-1] that a counting [for] loop visits. *)
Definition range (lo hi : Z) : list Z :=
  map (fun k => lo + Z.of_nat k) (seq 0 (Z.to_nat (hi - lo))).

(** [buffer[i]] of a [Float32Array] used in arithmetic: [undefined]
    outside the array becomes NaN. *)
Definition sample (buffer : list float) (i : Z) : float :=
  match Js.get buffer i with Some x => x | None => nan end.

(** [buffer.length / 2], the (possibly fractional) loop bound and
    divisor. *)
Definition halfLength (buffer : list float) : float :=
  (Js.of_int (Js.length buffer) / 2)%float.

(** The number of integers [i >= 0] with [i < buffer.length / 2]. *)
Definition halfCount (buffer : list float) : Z := (Js.length buffer + 1) / 2.

(** The inner loop: the products summed over [i < buffer.length / 2],
    divided by [buffer.length / 2]. *)
Definition sumProducts (buffer : list float) (offset : Z) : float :=
  fold_left
    (fun correlation i =>
       (correlation + sample buffer i * sample buffer (i + offset))%float)
    (range 0 (halfCount buffer)) 0%float.

Definition correlation (buffer : list float) (offset : Z) : float :=
  (sumProducts buffer offset / halfLength buffer)%float.

Definition threshold : float := 0.1.

(** The lags the outer loop visits: [offset = 80; offset < length / 2]. *)
Definition candidateOffsets (buffer : list float) : list Z :=
  range 80 (halfCount buffer).

(** One turn of the outer loop on [(bestCorrelation, bestOffset)]. *)
Definition visit (buffer : list float) (best : float * Z) (offset : Z)
  : float * Z :=
  let c := correlation buffer offset in
  if Js.gt c (fst best) then (c, offset) else best.

Definition scan (buffer : list float) : float * Z :=
  fold_left (visit buffer) (candidateOffsets buffer) (0%float, -1).

Definition findFundamentalFreq (buffer : list float) (sampleRate : float)
  : float :=
  let '(bestCorrelation, bestOffset) := scan buffer in
  if Js.gt bestCorrelation threshold
  then (sampleRate / Js.of_int bestOffset)%float
  else 0%float.

(** An element of the [Uint8Array] read as a number. *)
Definition amplitudeOf (b : byte) : float := Js.of_int (Z.of_N (Byte.to_N b)).

(** "Calculate volume" in [processAudio]. *)
Definition sumSquares (volumeArray : list byte) : float :=
  fold_left
    (fun sum b => (sum + amplitudeOf b * amplitudeOf b)%float)
    volumeArray 0%float.

Definition rms (volumeArray : list byte) : float :=
  (PrimFloat.sqrt (sumSquares volumeArray / Js.of_int (Js.length volumeArray)) / 128.0)%float.

(** "Map frequency to a 0-100 scale". *)
Definition pitchValue (fundamentalFreq : float) : float :=
  Js.Math_max2 0 (Js.Math_min2 100 ((fundamentalFreq - 100) / 4)%float).

(** One [processAudio] frame: the values handed to [setMicVolume] and
    [setUserPitch]. *)
Definition processAudio (dataArray : list float) (volumeArray : list byte)
  (sampleRate : float) : float * float :=
  let micVolume := rms volumeArray in
  let fundamentalFreq := findFundamentalFreq dataArray sampleRate in
  (micVolume, if Js.gt micVolume 0.01 then pitchValue fundamentalFreq else 50%float).

End PitchDetection.

(** ** hooks/useSongHistory.ts *)

Module SongHistory.

Definition MAX_HISTORY_SIZE : nat := 5.

Definition addSongToHistory (song : SongDetails) (prevHistory : list SongDetails)
  : list SongDetails :=
  let filteredHistory :=
    filter (fun item => negb (String.eqb (youtubeUrl item) (youtubeUrl song)))
           prevHistory in
  firstn MAX_HISTORY_SIZE (song :: filteredHistory).

End SongHistory.

(** ** App.tsx *)

Module App.

Open Scope string_scope.
Open Scope Z_scope.

Definition SONG_DURATION_S : float := 180.

(** *** The two regular expressions of [parseLRC]

    Strings are read as sequences of characters with codes below 256.
    Among these the line terminators are LF and CR, and the white space
    is 9 to 13, 32 and 160.  The line separators U+2028 and U+2029, at
    which [.] stops as well, and the white space above U+00FF are not
    among the strings modelled. *)

Definition newline : ascii := ascii_of_nat 10.
Definition carriageReturn : ascii := ascii_of_nat 13.

(** [\d] *)
Definition isDigit (c : ascii) : bool :=
  let n := N_of_ascii c in ((48 <=? n) && (n <=? 57))%N.

(** A matcher consumes a prefix of the input and yields a value, or
    fails. *)
Definition Matcher (A : Type) : Type := string -> option (A * string).

Definition ret {A : Type} (a : A) : Matcher A := fun s => Some (a, s).

Definition bind {A B : Type} (m : Matcher A) (k : A -> Matcher B) : Matcher B :=
  fun s => match m s with Some (a, s') => k a s' | None => None end.

Notation "x <- m ;; k" := (bind m (fun x => k))
  (at level 61, m at next level, right associativity).
Notation "m ;;; k" := (bind m (fun _ => k))
  (at level 61, right associativity).

(** A literal character. *)
Definition lit (c : ascii) : Matcher unit :=
  fun s => match s with
           | String c' rest => if Ascii.eqb c' c then Some (tt, rest) else None
           | EmptyString => None
           end.

(** [\d] *)
Definition digit : Matcher ascii :=
  fun s => match s with
           | String c rest => if isDigit c then Some (c, rest) else None
           | EmptyString => None
           end.

(** [\d{2}] *)
Definition digits2 : Matcher string :=
  a <- digit ;; b <- digit ;; ret (String a (String b EmptyString)).

(** [\d{2,3}\]]: the greedy third digit is kept only when the closing
    bracket follows it. *)
Definition digits2or3_bracket : Matcher string :=
  ab <- digits2 ;;
  fun s => match (c <- digit ;; lit "]" ;;; ret (ab ++ String c EmptyString)) s with
           | Some r => Some r
           | None => (lit "]" ;;; ret ab) s
           end.

(** [/^\[(\d{2}):(\d{2})\.(\d{2,3})\]/]: the three groups and what
    follows the match. *)
Definition timestamp : Matcher (string * string * string) :=
  lit "[" ;;; min <- digits2 ;; lit ":" ;;; sec <- digits2 ;; lit "." ;;;
  ms <- digits2or3_bracket ;; ret (min, sec, ms).

(** The last group, any characters but line terminators, as many as
    possible: everything up to the first line terminator, which for
    characters below 256 is LF or CR. *)
Fixpoint dotStar (s : string) : string :=
  match s with
  | EmptyString => EmptyString
  | String c rest =>
      if Ascii.eqb c newline || Ascii.eqb c carriageReturn then EmptyString
      else String c (dotStar rest)
  end.

(** [line.match(/^\[\d{2}:\d{2}\.\d{2,3}\]/)] as a test. *)
Definition hasTimestamp (line : string) : bool :=
  match timestamp line with Some _ => true | None => false end.

(** The second [line.match], whose pattern is the timestamp followed by
    that last group: the four groups. *)
Definition matchLine (line : string) : option (string * string * string * string) :=
  match timestamp line with
  | Some ((min, sec, ms), rest) => Some (min, sec, ms, dotStar rest)
  | None => None
  end.

(** *** String helpers *)

(** [s.split('\n')] *)
Fixpoint splitNewline (s : string) : string * list string :=
  match s with
  | EmptyString => (EmptyString, [])
  | String c rest =>
      let '(piece, pieces) := splitNewline rest in
      if Ascii.eqb c newline then (EmptyString, piece :: pieces)
      else (String c piece, pieces)
  end.

Definition split (s : string) : list string :=
  let '(piece, pieces) := splitNewline s in piece :: pieces.

(** White space for [trim], among the characters below 256: tab, line
    feed, vertical tab, form feed, carriage return, space and no-break
    space. *)
Definition isSpace (c : ascii) : bool :=
  let n := N_of_ascii c in
  (((9 <=? n) && (n <=? 13)) || (n =? 32) || (n =? 160))%N.

Fixpoint trimStart (s : string) : string :=
  match s with
  | String c rest => if isSpace c then trimStart rest else s
  | EmptyString => EmptyString
  end.

Fixpoint trimEnd (s : string) : string :=
  match s with
  | EmptyString => EmptyString
  | String c rest =>
      match trimEnd rest with
      | EmptyString => if isSpace c then EmptyString else String c EmptyString
      | rest' => String c rest'
      end
  end.

Definition trim (s : string) : string := trimEnd (trimStart s).

(** [parseInt(s, 10)] on a string of decimal digits. *)
Definition parseInt (s : string) : Z :=
  fold_left (fun n c => 10 * n + (Z.of_N (N_of_ascii c) - 48)) (list_ascii_of_string s) 0.

(** [s.padEnd(3, '0')] *)
Definition padEnd3 (s : string) : string :=
  s ++ string_of_list_ascii (repeat "0"%char (3 - String.length s)).

(** The seconds a timestamp denotes. *)
Definition seconds (min sec ms : string) : float :=
  (Js.of_int (parseInt min) * 60 + Js.of_int (parseInt sec)
   + Js.of_int (parseInt (padEnd3 ms)) / 1000)%float.

(** *** parseLRC *)

(** The [for] loop over the filtered [lines]; [lines[i+1]] is the head
    of what remains. *)
Fixpoint parseLines (lines : list string) : list LyricLine :=
  match lines with
  | [] => []
  | line :: rest =>
      match matchLine line with
      | None => parseLines rest
      | Some (min, sec, ms, txt) =>
          let startTime := seconds min sec ms in
          let endTime :=
            match rest with
            | nextLine :: _ =>
                match timestamp nextLine with
                | Some ((nextMin, nextSec, nextMs), _) =>
                    seconds nextMin nextSec nextMs
                | None => SONG_DURATION_S
                end
            | [] => SONG_DURATION_S
            end in
          {| text := trim txt; startTime := startTime; endTime := endTime |}
            :: parseLines rest
      end
  end.

(** "Set the end time of the last line to be a few seconds after its
    start". *)
Definition fixLastLine (timedLyrics : list LyricLine) : list LyricLine :=
  match rev timedLyrics with
  | [] => timedLyrics
  | lastLine :: before =>
      if (endTime lastLine =? SONG_DURATION_S)%float
      then (rev before ++
            [ {| text := text lastLine; startTime := startTime lastLine;
                 endTime := (startTime lastLine + 5)%float |} ])%list
      else timedLyrics
  end.

Definition parseLRC (lrcText : string) : list LyricLine :=
  let lines := filter hasTimestamp (split lrcText) in
  if Js.length lines =? 0 then []
  else fixLastLine (parseLines lines).

(** *** The application state and session start *)

Record State : Type := mkState {
  appState : AppState;
  songDetails : option SongDetails;
  lyrics : list LyricLine;
  finalScore : Z;
  error : option string;
  history : list SongDetails
}.

Definition initialState : State :=
  {| appState := HOME; songDetails := None; lyrics := []; finalScore := 0;
     error := None; history := [] |}.

(** How [await fetchLyrics(artist, title)] settles: with the LRC text,
    or with a thrown [Error] carrying a message. *)
Inductive Fetched : Type :=
| Resolved (lyricsLRC : string)
| Rejected (message : string).

Definition emptyLyricsMessage : string :=
  "A IA não conseguiu gerar letras sincronizadas. A resposta pode estar em um formato inesperado.".

(** The [catch] block of [handleStartKaraoke]. *)
Definition startFailed (st : State) (errorMessage : string) : State :=
  {| appState := HOME; songDetails := songDetails st; lyrics := lyrics st;
     finalScore := finalScore st;
     error := Some ("Falha ao iniciar o karaokê. " ++ errorMessage);
     history := history st |}.

(** The two updates made before the fetch is awaited. *)
Definition startLoading (st : State) : State :=
  {| appState := LOADING_LYRICS; songDetails := songDetails st;
     lyrics := lyrics st; finalScore := finalScore st; error := None;
     history := history st |}.

(** [handleStartKaraoke], once the fetch has settled. *)
Definition handleStartKaraoke (details : SongDetails) (fetched : Fetched)
  (st : State) : State :=
  let st := startLoading st in
  match fetched with
  | Rejected message => startFailed st message
  | Resolved lyricsLRC =>
      let timedLyrics := parseLRC lyricsLRC in
      if Js.length timedLyrics =? 0 then startFailed st emptyLyricsMessage
      else
        {| appState := KARAOKE; songDetails := Some details;
           lyrics := timedLyrics; finalScore := finalScore st;
           error := error st;
           history := SongHistory.addSongToHistory details (history st) |}
  end.

Definition handlePlayAgain (st : State) : State :=
  {| appState := HOME; songDetails := None; lyrics := []; finalScore := 0;
     error := None; history := history st |}.

(** What [renderContent] mounts. *)
Inductive Screen : Type :=
| HomeScreenView (loading : bool) (error : option string)
| KaraokeScreenView (songDetails : SongDetails) (lyrics : list LyricLine)
    (duration : float)
| ScoreScreenView (score : Z).

(** [renderContent]: the screen (or [null]) and the state it leaves. *)
Definition renderContent (st : State) : option Screen * State :=
  match appState st with
  | KARAOKE =>
      match songDetails st with
      | Some details =>
          if 0 <? Js.length (lyrics st)
          then (Some (KaraokeScreenView details (lyrics st) SONG_DURATION_S), st)
          else (None, handlePlayAgain st)
      | None => (None, handlePlayAgain st)
      end
  | SCORE => (Some (ScoreScreenView (finalScore st)), st)
  | LOADING_LYRICS => (Some (HomeScreenView true (error st)), st)
  | HOME => (Some (HomeScreenView false (error st)), st)
  end.

(** [handleSongEnd] and [handleVideoError]. *)
Definition handleSongEnd (score : Z) (st : State) : State :=
  {| appState := SCORE; songDetails := songDetails st; lyrics := lyrics st;
     finalScore := score; error := error st; history := history st |}.

Definition handleVideoError (errorMessage : string) (st : State) : State :=
  {| appState := HOME; songDetails := songDetails st; lyrics := lyrics st;
     finalScore := finalScore st; error := Some errorMessage;
     history := history st |}.

End App.

(** ** JavaScript numbers: floor, remainder and printing *)

Module JsNumber.

(** [Math.floor(x)]: a finite number [m * 2^e] with [e < 0] goes to the
    integer below it; every other number is its own floor. *)
Definition Math_floor (x : float) : float :=
  match Prim2SF x with
  | S754_finite s m e =>
      if 0 <=? e then x
      else Js.of_int (Z.shiftr (if s then Z.neg m else Z.pos m) (- e))
  | _ => x
  end.

(** [x % y]: the exact remainder of the division truncated towards zero,
    with the sign of [x]. *)
Definition rem (x y : float) : float :=
  match Prim2SF x, Prim2SF y with
  | S754_nan, _ | _, S754_nan => nan
  | S754_infinity _, _ => nan
  | _, S754_zero _ => nan
  | _, S754_infinity _ => x
  | S754_zero _, _ => x
  | S754_finite sx mx ex, S754_finite _ my ey =>
      let e := Z.min ex ey in
      let r := Z.rem (Z.pos mx * 2 ^ (ex - e)) (Z.pos my * 2 ^ (ey - e)) in
      let magnitude := Z.ldexp (Js.of_int r) e in
      if sx then (- magnitude)%float else magnitude
  end.

(** The integer a number is, if it is one. *)
Definition toInteger (x : float) : option Z :=
  match Prim2SF x with
  | S754_zero _ => Some 0
  | S754_finite s m e =>
      let z := if s then Z.neg m else Z.pos m in
      if 0 <=? e then Some (z * 2 ^ e)
      else if Z.land (Z.pos m) (2 ^ (- e) - 1) =? 0
           then Some (Z.shiftr z (- e))
           else None
  | _ => None
  end.

(** [n.toString()] for a number that is a non-negative integer below
    10^21: its decimal digits.  The printing of other numbers is not
    modelled ([None]). *)
Definition toString (n : float) : option string :=
  match toInteger n with
  | Some z =>
      if (0 <=? z) && (z <? 10 ^ 21)
      then Some (NilZero.string_of_uint (N.to_uint (Z.to_N z)))
      else None
  | None => None
  end.

End JsNumber.

(** ** services/geminiService.ts *)

Module GeminiService.

Open Scope string_scope.
Open Scope Z_scope.

(** [s.padStart(2, '0')] *)
Definition padStart2 (s : string) : string :=
  string_of_list_ascii (repeat "0"%char (2 - String.length s)) ++ s.

(** [pieces.join('\n')] *)
Fixpoint join (pieces : list string) : string :=
  match pieces with
  | [] => ""
  | [piece] => piece
  | piece :: rest => piece ++ String App.newline (join rest)
  end.

(** [pad] and [toTimestamp] of [fetchLyricsFromFallback]. *)
Definition pad (n : float) : option string :=
  option_map padStart2 (JsNumber.toString n).

Definition toTimestamp (seconds : float) : option string :=
  let mm := JsNumber.Math_floor (seconds / 60)%float in
  let ss := JsNumber.Math_floor (JsNumber.rem seconds 60) in
  let cs :=
    JsNumber.Math_floor ((seconds - JsNumber.Math_floor seconds) * 100)%float in
  match pad mm, pad ss, pad cs with
  | Some m, Some s, Some c => Some ("[" ++ m ++ ":" ++ s ++ "." ++ c ++ "]")
  | _, _, _ => None
  end.

Definition perLine : float := 3.5.

(** [lines.map(...)] with its running [current]. *)
Fixpoint lrcLinesFrom (current : float) (lines : list string)
  : option (list string) :=
  match lines with
  | [] => Some []
  | line :: rest =>
      match toTimestamp current, lrcLinesFrom (current + perLine)%float rest with
      | Some ts, Some lrcLines => Some ((ts ++ line) :: lrcLines)
      | _, _ => None
      end
  end.

(** [raw.split(/\r?\n/).map(l => l.trim()).filter(l => l.length > 0)].
    Splitting at the line feeds alone gives the same lines: a carriage
    return left before a line feed is taken off by [trim]. *)
Definition usableLines (raw : string) : list string :=
  filter (fun l => (0 <? String.length l)%nat) (map App.trim (App.split raw)).

(** The conversion in [fetchLyricsFromFallback] of the lyrics the
    provider returned: the LRC text, or the error thrown ([None] where a
    timestamp is outside the printing modelled). *)
Definition lrcFromLyrics (raw : string) : option App.Fetched :=
  if (String.length (App.trim raw) =? 0)%nat
  then Some (App.Rejected "Fallback returned empty lyrics")
  else
    let lines := usableLines raw in
    if (List.length lines =? 0)%nat
    then Some (App.Rejected "No usable lyrics lines from fallback")
    else option_map (fun lrcLines => App.Resolved (join lrcLines))
                    (lrcLinesFrom 0 lines).

(** *** fetchLyrics *)

(** How the Gemini request settles: with a response, whose [text] may be
    missing, or by throwing (the time-out included); for a thrown
    [Error], its message. *)
Inductive GeminiOutcome : Type :=
| Responded (text : option string)
| Threw (message : option string).

(** How one call of [fetchLyricsFromFallback] settles. *)
Inductive FallbackOutcome : Type :=
| FallbackLRC (lyricsLRC : string)
| FallbackThrew (message : string).

(** [message.includes('timeout')] *)
Definition includesTimeout (message : string) : bool :=
  match String.index 0 "timeout" message with
  | Some _ => true
  | None => false
  end.

Definition timeoutMessage : string :=
  "A requisição à API de letras expirou e o fallback falhou. Verifique sua chave/API ou tente novamente mais tarde.".

Definition unavailableMessage : string :=
  "Não foi possível obter as letras. O serviço de IA e o fallback de letras estão indisponíveis.".

(** The [catch] block, entered with the value thrown in the [try] block,
    when [calls] fallback requests have been made so far: one more
    request. *)
Definition afterThrow (error : option string)
  (fallback : nat -> FallbackOutcome) (calls : nat) : App.Fetched * nat :=
  match fallback calls with
  | FallbackLRC lyricsLRC => (App.Resolved lyricsLRC, S calls)
  | FallbackThrew _ =>
      match error with
      | Some message =>
          if includesTimeout message
          then (App.Rejected timeoutMessage, S calls)
          else (App.Rejected unavailableMessage, S calls)
      | None => (App.Rejected unavailableMessage, S calls)
      end
  end.

(** [fetchLyrics]: what it settles with, and how many requests it made to
    the fallback provider, whose [n]-th request settles as [fallback n].
    A fallback request that fails inside the [try] block lands in the
    [catch] block like any other throw. *)
Definition fetchLyrics (gemini : GeminiOutcome)
  (fallback : nat -> FallbackOutcome) : App.Fetched * nat :=
  match gemini with
  | Responded (Some (String c rest)) =>
      (App.Resolved (App.trim (String c rest)), O)
  | Responded _ =>
      match fallback O with
      | FallbackLRC lyricsLRC => (App.Resolved lyricsLRC, 1%nat)
      | FallbackThrew message => afterThrow (Some message) fallback 1
      end
  | Threw error => afterThrow error fallback 0
  end.

End GeminiService.

(* ================================================================== *)
(** * Part II: vocabulary of the specification and test data           *)
(* ================================================================== *)

Module Vocabulary.

Import KaraokeScreen PitchDetection.

(** [clamp lo hi x]: [x] brought into the interval from [lo] to [hi]. *)
Definition clamp (lo hi x : Z) : Z := Z.max lo (Z.min hi x).

(** A tick of continued silence: the song is playing, the microphone is
    ready and the loudness is below 0.05. *)
Definition quiet (duration : float) (f : Frame) : Prop :=
  isMicReady f = true /\
  (micVolume f <? 0.05)%float = true /\
  Js.ge (newTimeOf f) duration = false.

(** What the outer loop of the estimator maintains about
    [(bestCorrelation, bestOffset)] after the lags [seen]: no correlation
    seen exceeds the best one, and the best one is either the initial 0
    (with offset -1) or the positive correlation of the lag recorded with
    it. *)
Definition bestSoFar (buffer : list float) (seen : list Z) (best : float * Z)
  : Prop :=
  (forall L, In L seen -> (fst best <? correlation buffer L)%float = false) /\
  ((best = (0%float, -1)) \/
   (In (snd best) seen /\ fst best = correlation buffer (snd best)
    /\ (0 <? fst best)%float = true)).

(** The two lyric lines of the specification's example. *)
Definition lineA : LyricLine := {| text := "a"; startTime := 0; endTime := 5 |}.
Definition lineB : LyricLine := {| text := "b"; startTime := 5; endTime := 10 |}.

(** The loudest frame the analyser can deliver: every one of the 1024
    frequency bins at 255. *)
Definition saturatedFrame : list byte := repeat xff 1024.

(** A reply of the lyrics source in which no line carries a well-formed
    timestamp, and a song to ask for. *)
Definition unsyncedText : string :=
  "When I walk on by" ++ String App.newline "[0:13.2] not a timestamp".

Definition sampleSong : SongDetails :=
  {| artist := "LMFAO"; title := "Sexy and I Know It";
     youtubeUrl := "https://youtu.be/wyx6JDQCslE" |}.

(** A square wave of the given period in samples, and pseudo-random
    noise from a linear congruential generator: the samples are the
    multiples of 1/1024 in [-1, 1], numbers a [Float32Array] holds
    exactly. *)
Definition squareWave (period n : nat) : list float :=
  map (fun i => if (2 * Nat.modulo i period <? period)%nat
                then 1%float else (-1)%float)
      (seq 0 n).

Fixpoint lcg (n : nat) (x : Z) : list Z :=
  match n with
  | O => []
  | S n' =>
      let x' := (1103515245 * x + 12345) mod 2147483648 in x' :: lcg n' x'
  end.

Definition noise (n : nat) (seed : Z) : list float :=
  map (fun x => (Js.of_int ((x / 65536) mod 2049 - 1024) / 1024)%float)
      (lcg n seed).

(** The specification's normalized correlation
    corr(L) = (1/M) * sum_{i=0}^{M-1} x[i]*x[i+L] with M = N/2, written
    from its words: the products x[i]*x[i+L] at the indices i below N/2,
    added in increasing order of i, and the sum divided by N/2. *)
Definition lagProducts (x : list float) (L : nat) : list float :=
  map (fun i => (nth i x 0 * nth (i + L) x 0)%float)
      (filter (fun i => (2 * i <? List.length x)%nat)
              (seq 0 (List.length x))).

Definition normalizedCorrelation (x : list float) (L : nat) : float :=
  (fold_left PrimFloat.add (lagProducts x L) 0
   / (Js.of_int (Z.of_nat (List.length x)) / 2))%float.

(** The history after a sequence of songs was started, one after the
    other, from a given history. *)
Definition played (songs : list SongDetails) (stored : list SongDetails)
  : list SongDetails :=
  fold_left (fun history song => SongHistory.addSongToHistory song history)
            songs stored.

(** A frame that arrives while the song is still playing. *)
Definition playing (duration : float) (f : Frame) : Prop :=
  Js.ge (newTimeOf f) duration = false.

(** Songs to fill a history with. *)
Definition songA : SongDetails :=
  {| artist := "Queen"; title := "Bohemian Rhapsody";
     youtubeUrl := "https://youtu.be/fJ9rUzIMcZQ" |}.
Definition songB : SongDetails :=
  {| artist := "Gotye"; title := "Somebody That I Used To Know";
     youtubeUrl := "https://youtu.be/8UVNT4wvIGY" |}.
Definition songN (n : nat) : SongDetails :=
  {| artist := "Artist"; title := "Song";
     youtubeUrl := String (ascii_of_nat (65 + n)) "" |}.

(** Frames for the game loop: a well sung one, a silent one, and one that
    arrives after the end of a 100 second song. *)
Definition sungFrame : Frame := mkFrame (Some 1%float) true 0.5 50 7.
Definition silentFrame : Frame := mkFrame (Some 1%float) true 0 50 7.
Definition lateFrame : Frame := mkFrame (Some 100%float) true 0.5 50 9.

(** A second invariant of the estimator's outer loop: no lag seen before
    the recorded one reaches the best correlation. *)
Definition firstBest (buffer : list float) (seen : list Z) (best : float * Z)
  : Prop :=
  forall L, In L seen -> L < snd best ->
            (fst best <=? correlation buffer L)%float = false.

(** A number is within 0..100. *)
Definition within_0_100 (p : float) : Prop :=
  (0 <=? p)%float = true /\ (p <=? 100)%float = true.

(** What a timestamped line contributes by itself: its text and its
    start time. *)
Definition lineText (line : string) : string :=
  match App.matchLine line with
  | Some (_, _, _, txt) => App.trim txt
  | None => EmptyString
  end.

Definition lineStart (line : string) : float :=
  match App.matchLine line with
  | Some (min, sec, ms, _) => App.seconds min sec ms
  | None => nan
  end.

(** A timeline without gaps: every line ends where the next one starts,
    and the last one ends five seconds after its start. *)
Fixpoint chained (timedLyrics : list LyricLine) : Prop :=
  match timedLyrics with
  | [] => True
  | line :: rest =>
      match rest with
      | [] => endTime line = (startTime line + 5)%float
      | next :: _ => endTime line = startTime next
      end /\ chained rest
  end.

(** The same before the last line is adjusted: it still ends at the
    assumed song duration. *)
Fixpoint chainedTo (last : float) (timedLyrics : list LyricLine) : Prop :=
  match timedLyrics with
  | [] => True
  | line :: rest =>
      match rest with
      | [] => endTime line = last
      | next :: _ => endTime line = startTime next
      end /\ chainedTo last rest
  end.

(** A string of decimal digits. *)
Definition allDigits (s : string) : Prop :=
  Forall (fun c => App.isDigit c = true) (list_ascii_of_string s).

(** An LRC text with two junk lines among three timestamped ones. *)
Definition sampleLRC : string :=
  "[ti:title]" ++ String App.newline
  ("[00:10.54]When I walk on by" ++ String App.newline
  ("[00:13.20] girls be looking " ++ String App.newline
  ("(chorus)" ++ String App.newline
   "[01:02.345]yeah"))).

(** Every character of a string satisfies a test. *)
Fixpoint every (p : ascii -> bool) (s : string) : bool :=
  match s with
  | EmptyString => true
  | String c rest => p c && every p rest
  end.

Definition notLineFeed (c : ascii) : bool := negb (Ascii.eqb c App.newline).
Definition notCarriageReturn (c : ascii) : bool :=
  negb (Ascii.eqb c App.carriageReturn).

(** The start times of lines placed every 3.5 seconds. *)
Definition everyPerLine (first count : nat) : list float :=
  map (fun k => (Js.of_int (Z.of_nat k) * 3.5)%float) (seq first count).

(** The check made on the [k]-th timestamp the fallback writes, for the
    running time [current]: it is printed, it parses back as a timestamp
    with nothing left over, to the time [k * 3.5], and holds no line
    feed. *)
Definition stampCheck (k : nat) (current : float) : bool :=
  match GeminiService.toTimestamp current with
  | Some ts =>
      match App.timestamp ts with
      | Some ((min, sec, ms), rest) =>
          String.eqb rest EmptyString
          && PrimFloat.Leibniz.eqb (App.seconds min sec ms)
                                   (Js.of_int (Z.of_nat k) * 3.5)%float
          && every notLineFeed ts
      | None => false
      end
  | None => false
  end.

Fixpoint stampsChecked (current : float) (k count : nat) : bool :=
  match count with
  | O => true
  | S count' =>
      stampCheck k current
      && stampsChecked (current + GeminiService.perLine)%float (S k) count'
  end.

(** Lyrics as a provider returns them: padded lines, blank lines, and
    carriage returns before the line feeds. *)
Definition plainLyrics : string :=
  "  Hello darkness " ++ String App.carriageReturn (String App.newline
  (String App.newline
  ("my old friend" ++ String App.carriageReturn (String App.newline
  ("   " ++ String App.newline "I've come to talk"))))).

(** A line as [usableLines] delivers it (trimmed, on one line) and
    without a carriage return inside. *)
Definition plainLine (l : string) : Prop :=
  App.trim l = l /\ every notLineFeed l = true
  /\ every notCarriageReturn l = true.

(** A fallback provider that always fails, and one that fails once. *)
Definition fallbackDown (call : nat) : GeminiService.FallbackOutcome :=
  GeminiService.FallbackThrew "Fallback lyrics provider returned an error".

Definition fallbackFlaky (call : nat) : GeminiService.FallbackOutcome :=
  match call with
  | O => GeminiService.FallbackThrew "Failed to fetch"
  | _ => GeminiService.FallbackLRC "[00:00.00]la la la"
  end.

(** A frame on which the singer is heard: the microphone is ready and the
    loudness is above 0.05. *)
Definition singing (f : Frame) : bool :=
  isMicReady f && Js.gt (micVolume f) 0.05.

(** The frames since the singer was last heard: [run] is a suffix of the
    frames played so far, without a singing frame, and at least as long
    as the silence streak. *)
Definition unheardSince (past : list Frame) (st : GameState) : Prop :=
  exists before run,
    past = before ++ run /\
    Forall (fun f => singing f = false) run /\
    noSingingCounter st <= Js.length run.

(** A text of white space only. *)
Definition blankLyrics : string :=
  "  " ++ String App.newline (String App.carriageReturn " ").

End Vocabulary.

(* ================================================================== *)
(** * Part III: properties                                             *)
(* ================================================================== *)

(** ** The order of binary64 numbers

    The comparisons of the program are the primitive ones; what is known
    about them comes from their specification on [spec_float]. *)

Module FloatOrder.

Ltac compare_cases :=
  repeat match goal with
  | H : context [Z.compare ?a ?b] |- _ => destruct (Z.compare_spec a b)
  | |- context [Z.compare ?a ?b] => destruct (Z.compare_spec a b)
  | H : context [Pos.compare_cont Eq ?a ?b] |- _ =>
      change (Pos.compare_cont Eq a b) with (Pos.compare a b) in H;
      destruct (Pos.compare_spec a b)
  | |- context [Pos.compare_cont Eq ?a ?b] =>
      change (Pos.compare_cont Eq a b) with (Pos.compare a b);
      destruct (Pos.compare_spec a b)
  end.

Ltac by_cases3 x y z :=
  unfold SFltb, SFleb, SFeqb, SFcompare;
  destruct x as [[]|[]| |[] ? ?], y as [[]|[]| |[] ? ?], z as [[]|[]| |[] ? ?];
  simpl; try congruence; intros; compare_cases; simpl in *; subst;
  try congruence; try lia.

Ltac by_cases2 x y :=
  unfold SFltb, SFleb, SFeqb, SFcompare;
  destruct x as [[]|[]| |[] ? ?], y as [[]|[]| |[] ? ?];
  simpl; try congruence; intros; compare_cases; simpl in *; subst;
  try congruence; try lia.

Lemma SFltb_trans x y z :
  SFltb x y = true -> SFltb y z = true -> SFltb x z = true.
Proof. by_cases3 x y z. Qed.

Lemma SFltb_asym x y : SFltb x y = true -> SFltb y x = false.
Proof. by_cases2 x y. Qed.

Lemma SFleb_not_ltb x y : SFleb x y = true -> SFltb y x = false.
Proof. by_cases2 x y. Qed.

Lemma SFltb_ordered_r x y : SFltb x y = true -> SFeqb y y = true.
Proof. by_cases2 x y. Qed.

Lemma SFltb_below_bound a x b :
  SFltb a x = true -> SFltb b x = false -> SFeqb b b = true ->
  SFltb a b = true.
Proof. by_cases3 a x b. Qed.

Lemma ltb_irrefl x : (x <? x)%float = false.
Proof.
  destruct (x <? x)%float eqn:E; [|reflexivity].
  rewrite FloatAxioms.ltb_spec in E. apply SFltb_asym in E as E'. congruence.
Qed.

Lemma ltb_trans x y z :
  (x <? y)%float = true -> (y <? z)%float = true -> (x <? z)%float = true.
Proof. rewrite !FloatAxioms.ltb_spec. apply SFltb_trans. Qed.

Lemma ltb_asym x y : (x <? y)%float = true -> (y <? x)%float = false.
Proof. rewrite !FloatAxioms.ltb_spec. apply SFltb_asym. Qed.

Lemma leb_not_ltb x y : (x <=? y)%float = true -> (y <? x)%float = false.
Proof. rewrite FloatAxioms.leb_spec, FloatAxioms.ltb_spec. apply SFleb_not_ltb. Qed.

Lemma ltb_ordered_r x y : (x <? y)%float = true -> (y =? y)%float = true.
Proof. rewrite FloatAxioms.ltb_spec, FloatAxioms.eqb_spec. apply SFltb_ordered_r. Qed.

(** If [a < x] and [b] is a number that [x] does not exceed, then
    [a < b]. *)
Lemma ltb_below_bound a x b :
  (a <? x)%float = true -> (b <? x)%float = false -> (b =? b)%float = true ->
  (a <? b)%float = true.
Proof. rewrite !FloatAxioms.ltb_spec, FloatAxioms.eqb_spec. apply SFltb_below_bound. Qed.

(** [d < lo] is impossible once [hi <= d] for some [hi] above [lo]. *)
Lemma leb_above_not_ltb lo hi d :
  (lo <? hi)%float = true -> (hi <=? d)%float = true -> (d <? lo)%float = false.
Proof.
  intros Hlh Hd. destruct (d <? lo)%float eqn:E; [|reflexivity].
  pose proof (ltb_trans _ _ _ E Hlh) as H.
  apply leb_not_ltb in Hd. congruence.
Qed.

End FloatOrder.

(** ** The scoring tick *)

Module ScoringEngine.

Import KaraokeScreen Vocabulary.

Lemma gameTick_NextFrame Math_sin duration f st st' :
  gameTick Math_sin duration f st = NextFrame st' ->
  Js.ge (newTimeOf f) duration = false /\
  st' = scoringAndTomato f (targetPitchAt Math_sin (newTimeOf f))
          {| currentTime := newTimeOf f; score := score st;
             noSingingCounter := noSingingCounter st;
             tomatoes := tomatoes st |}.
Proof.
  unfold gameTick, newTimeOf.
  destruct (Js.ge _ duration); [discriminate|].
  intros H; injection H as <-. split; reflexivity.
Qed.

Lemma scoringAndTomato_currentTime f targetPitch st :
  currentTime (scoringAndTomato f targetPitch st) = currentTime st.
Proof.
  unfold scoringAndTomato.
  repeat match goal with |- context [if ?b then _ else _] => destruct b end;
    reflexivity.
Qed.

(** A frame on which the singer is heard: the streak is cleared, no
    tomato is thrown, and the score moves by the band of the pitch
    difference. *)
Lemma scoringAndTomato_singing f targetPitch st :
  isMicReady f = true ->
  (0.05 <? micVolume f)%float = true ->
  let diff := PrimFloat.abs (userPitch f - targetPitch)%float in
  let st' := scoringAndTomato f targetPitch st in
  noSingingCounter st' = 0 /\
  tomatoes st' = tomatoes st /\
  score st' = (if (diff <? 10)%float then score st + 5
               else if (diff <? 20)%float then score st + 2
               else score st).
Proof.
  intros Hmic Hvol. unfold scoringAndTomato, Js.gt.
  rewrite Hmic, Hvol. cbn. repeat split; reflexivity.
Qed.

(** A frame on which the singer is not heard (the volume does not exceed
    0.05): the score stays, the streak grows by one, and passing 120 it
    throws one tomato and restarts. *)
Lemma scoringAndTomato_quiet f targetPitch st :
  isMicReady f = true ->
  (0.05 <? micVolume f)%float = false ->
  let st' := scoringAndTomato f targetPitch st in
  score st' = score st /\
  (if noSingingCounter st + 1 >? 120
   then noSingingCounter st' = 0 /\ tomatoes st' = tomatoes st ++ [tomatoId f]
   else noSingingCounter st' = noSingingCounter st + 1
        /\ tomatoes st' = tomatoes st).
Proof.
  intros Hmic Hvol. unfold scoringAndTomato, Js.gt.
  rewrite Hmic, Hvol. cbn.
  destruct (noSingingCounter st + 1 >? 120); cbn; repeat split; reflexivity.
Qed.

(** C1, as the program has it.  On every tick that runs while the song is
    playing, with the microphone ready and a loudness above 0.05, the
    silence streak becomes 0 and the score grows by exactly 5 when the
    distance between the user's pitch and the target pitch is below 10,
    by exactly 2 when it is at least 10 and below 20, and stays when it
    is at least 20. *)
Theorem gameTick_singing_scores
  (Math_sin : float -> float) (duration : float) (f : Frame)
  (st st' : GameState) :
  gameTick Math_sin duration f st = NextFrame st' ->
  isMicReady f = true ->
  (0.05 <? micVolume f)%float = true ->
  let diff :=
    PrimFloat.abs (userPitch f - targetPitchAt Math_sin (newTimeOf f))%float in
  noSingingCounter st' = 0 /\
  ((diff <? 10)%float = true -> score st' = score st + 5) /\
  ((10 <=? diff)%float = true -> (diff <? 20)%float = true ->
   score st' = score st + 2) /\
  ((20 <=? diff)%float = true -> score st' = score st).
Proof.
  intros Htick Hmic Hvol. cbv zeta.
  apply gameTick_NextFrame in Htick as [_ ->].
  set (t := targetPitchAt Math_sin (newTimeOf f)).
  set (diff := PrimFloat.abs (userPitch f - t)%float).
  destruct (scoringAndTomato_singing f t
              {| currentTime := newTimeOf f; score := score st;
                 noSingingCounter := noSingingCounter st;
                 tomatoes := tomatoes st |} Hmic Hvol) as (Hc & _ & Hs).
  cbn [score] in Hs. fold diff in Hs.
  split; [exact Hc|]. rewrite Hs. repeat split.
  - intros ->. reflexivity.
  - intros Hlo ->. apply FloatOrder.leb_not_ltb in Hlo. rewrite Hlo. reflexivity.
  - intros Hhi.
    rewrite (FloatOrder.leb_above_not_ltb 10 20 diff eq_refl Hhi).
    rewrite (FloatOrder.leb_not_ltb _ _ Hhi). reflexivity.
Qed.

(** An "ok pitch" frame: loudness 0.5, pitch 62 against a target of 50
    (a reference curve that is flat at 50). *)
Lemma gameTick_singing_scores_witness :
  score (stateOf (gameTick (fun _ => 0%float) 100
                    (mkFrame (Some 1%float) true 0.5 62 7) initialState)) = 2.
Proof.
  set (f := mkFrame (Some 1%float) true 0.5 62 7).
  destruct (gameTick_singing_scores (fun _ => 0%float) 100 f initialState
              (stateOf (gameTick (fun _ => 0%float) 100 f initialState))
              eq_refl eq_refl eq_refl) as (_ & _ & H & _).
  apply H; reflexivity.
Defined.

(** C1 as written fails at the threshold and without a microphone: a
    frame whose loudness is exactly 0.05 counts as silence (the streak
    grows to 1 and a perfect pitch earns nothing), and a loud, perfectly
    pitched frame earns nothing while the microphone is not ready. *)
Lemma loudness_at_threshold_is_silence :
  let atThreshold := mkFrame (Some 1%float) true 0.05 50 7 in
  let noMic := mkFrame (Some 1%float) false 0.5 50 7 in
  (0.05 <=? micVolume atThreshold)%float = true /\
  (PrimFloat.abs (userPitch atThreshold - 50) <? 10)%float = true /\
  scoringAndTomato atThreshold 50 initialState
  = {| currentTime := 0; score := 0; noSingingCounter := 1; tomatoes := [] |} /\
  (0.05 <=? micVolume noMic)%float = true /\
  scoringAndTomato noMic 50
    {| currentTime := 0; score := 0; noSingingCounter := 3; tomatoes := [] |}
  = {| currentTime := 0; score := 0; noSingingCounter := 3; tomatoes := [] |}.
Proof. cbv zeta. repeat split; reflexivity. Qed.

(** *** The microphone gate *)

(** C8.  A tick that runs while the microphone is not ready leaves the
    score, the silence streak and the pending tomatoes exactly as they
    were; the playback clock still moves to the player's time (and with
    it the target pitch, which is a function of that time). *)
Theorem gameTick_mic_not_ready
  (Math_sin : float -> float) (duration : float) (f : Frame) (st : GameState) :
  isMicReady f = false ->
  let st' := stateOf (gameTick Math_sin duration f st) in
  score st' = score st /\
  noSingingCounter st' = noSingingCounter st /\
  tomatoes st' = tomatoes st /\
  currentTime st' = newTimeOf f.
Proof.
  intros Hmic. unfold gameTick, scoringAndTomato, newTimeOf.
  rewrite Hmic. destruct (Js.ge _ duration); cbn; repeat split; reflexivity.
Qed.

(** A loud, well pitched frame that arrives before the microphone is
    ready, on a streak of 120 with one tomato in flight. *)
Lemma gameTick_mic_not_ready_witness :
  let st := {| currentTime := 3; score := 40; noSingingCounter := 120;
               tomatoes := [11%float] |} in
  let st' := stateOf (gameTick (fun _ => 0%float) 100
                        (mkFrame (Some 4%float) false 0.5 50 7) st) in
  score st' = 40 /\ noSingingCounter st' = 120 /\ tomatoes st' = [11%float]
  /\ currentTime st' = 4%float.
Proof.
  exact (gameTick_mic_not_ready (fun _ => 0%float) 100
           (mkFrame (Some 4%float) false 0.5 50 7)
           {| currentTime := 3; score := 40; noSingingCounter := 120;
              tomatoes := [11%float] |} eq_refl).
Defined.

(** *** The score only grows *)

Lemma scoringAndTomato_score_mono f targetPitch st :
  score st <= score (scoringAndTomato f targetPitch st).
Proof.
  unfold scoringAndTomato.
  repeat match goal with |- context [if ?b then _ else _] => destruct b end;
    cbn; lia.
Qed.

Lemma gameTick_score_mono Math_sin duration f st :
  score st <= score (stateOf (gameTick Math_sin duration f st)).
Proof.
  unfold gameTick. destruct (Js.ge _ duration); cbn [stateOf score].
  - lia.
  - apply (scoringAndTomato_score_mono f _
             {| currentTime := _; score := score st;
                noSingingCounter := noSingingCounter st;
                tomatoes := tomatoes st |}).
Qed.

Lemma gameLoop_score_mono Math_sin duration frames :
  forall st, score st <= score (stateOf (gameLoop Math_sin duration frames st)).
Proof.
  induction frames as [|f frames IH]; intros st; cbn [gameLoop stateOf].
  - lia.
  - pose proof (gameTick_score_mono Math_sin duration f st) as H.
    destruct (gameTick Math_sin duration f st) as [st1|st1 sc]; cbn [stateOf] in *.
    + specialize (IH st1). lia.
    + exact H.
Qed.

(** Running more frames continues from where the first ones stopped,
    unless the song had ended. *)
Lemma gameLoop_app Math_sin duration frames more :
  forall st,
    gameLoop Math_sin duration (frames ++ more) st
    = match gameLoop Math_sin duration frames st with
      | NextFrame st' => gameLoop Math_sin duration more st'
      | SongEnd st' sc => SongEnd st' sc
      end.
Proof.
  induction frames as [|f frames IH]; intros st; cbn [gameLoop app].
  - reflexivity.
  - destruct (gameTick Math_sin duration f st); [apply IH | reflexivity].
Qed.

(** C5.  In a session (the loop started from the mounted component, over
    any sequence of frames), the score is never negative and no further
    tick ever lowers it. *)
Theorem score_monotone_and_nonnegative
  (Math_sin : float -> float) (duration : float) (frames more : list Frame) :
  let earlier := stateOf (gameLoop Math_sin duration frames initialState) in
  let later :=
    stateOf (gameLoop Math_sin duration (frames ++ more) initialState) in
  0 <= score earlier <= score later.
Proof.
  cbv zeta. rewrite gameLoop_app.
  pose proof (gameLoop_score_mono Math_sin duration frames initialState) as H0.
  cbn [score initialState] in H0.
  destruct (gameLoop Math_sin duration frames initialState) as [st1|st1 sc];
    cbn [stateOf] in *.
  - pose proof (gameLoop_score_mono Math_sin duration more st1). lia.
  - lia.
Qed.

(** *** The silence streak and the tomato *)

Lemma gameTick_quiet Math_sin duration f st :
  quiet duration f ->
  exists st',
    gameTick Math_sin duration f st = NextFrame st' /\
    score st' = score st /\
    (if noSingingCounter st + 1 >? 120
     then noSingingCounter st' = 0 /\ tomatoes st' = tomatoes st ++ [tomatoId f]
     else noSingingCounter st' = noSingingCounter st + 1
          /\ tomatoes st' = tomatoes st).
Proof.
  intros (Hmic & Hvol & Hactive).
  apply FloatOrder.ltb_asym in Hvol.
  unfold gameTick. fold (newTimeOf f). rewrite Hactive.
  eexists; split; [reflexivity|].
  apply (scoringAndTomato_quiet f _
           {| currentTime := _; score := score st;
              noSingingCounter := noSingingCounter st;
              tomatoes := tomatoes st |} Hmic Hvol).
Qed.

(** While the streak stays at or below 120 nothing is thrown. *)
Lemma quiet_run_below Math_sin duration frames :
  forall st,
    Forall (quiet duration) frames ->
    noSingingCounter st + Js.length frames <= 120 ->
    exists st',
      gameLoop Math_sin duration frames st = NextFrame st' /\
      score st' = score st /\
      noSingingCounter st' = noSingingCounter st + Js.length frames /\
      tomatoes st' = tomatoes st.
Proof.
  unfold Js.length.
  induction frames as [|f frames IH]; intros st Hq Hn; cbn [gameLoop].
  - exists st. cbn. repeat split; lia.
  - inversion Hq as [|? ? Hf Hrest]; subst.
    destruct (gameTick_quiet Math_sin duration f st Hf) as (st1 & -> & Hs & Hc).
    cbn [List.length] in Hn.
    destruct (noSingingCounter st + 1 >? 120) eqn:E; [lia|].
    destruct Hc as [Hc Ht].
    destruct (IH st1 Hrest) as (st' & Hrun & Hs' & Hc' & Ht'); [lia|].
    exists st'. cbn [List.length]. repeat split; try congruence; lia.
Qed.

(** Over any run of quiet ticks the streak counts modulo 121 and one
    tomato is thrown each time it wraps. *)
Lemma quiet_run_counts Math_sin duration frames :
  forall st,
    Forall (quiet duration) frames ->
    0 <= noSingingCounter st <= 120 ->
    exists st',
      gameLoop Math_sin duration frames st = NextFrame st' /\
      score st' = score st /\
      noSingingCounter st' = (noSingingCounter st + Js.length frames) mod 121 /\
      Js.length (tomatoes st')
      = Js.length (tomatoes st) + (noSingingCounter st + Js.length frames) / 121.
Proof.
  unfold Js.length.
  induction frames as [|f frames IH]; intros st Hq Hn; cbn [gameLoop].
  - exists st. cbn. repeat split; try reflexivity.
    + rewrite Z.add_0_r, Z.mod_small; lia.
    + rewrite Z.add_0_r, Z.div_small; lia.
  - inversion Hq as [|? ? Hf Hrest]; subst.
    destruct (gameTick_quiet Math_sin duration f st Hf) as (st1 & -> & Hs & Hc).
    destruct (noSingingCounter st + 1 >? 120) eqn:E.
    + destruct Hc as [Hc Ht].
      destruct (IH st1 Hrest) as (st' & Hrun & Hs' & Hc' & Ht'); [lia|].
      exists st'. rewrite Hc' , Ht', Hc, Ht, length_app. cbn [List.length].
      assert (noSingingCounter st = 120) as -> by lia.
      replace (120 + Z.of_nat (S (List.length frames)))
        with (0 + Z.of_nat (List.length frames) + 1 * 121) by lia.
      rewrite Z.mod_add, Z.div_add by lia.
      repeat split; try congruence; lia.
    + destruct Hc as [Hc Ht].
      destruct (IH st1 Hrest) as (st' & Hrun & Hs' & Hc' & Ht'); [lia|].
      exists st'. rewrite Hc', Ht', Hc, Ht. cbn [List.length].
      replace (noSingingCounter st + Z.of_nat (S (List.length frames)))
        with (noSingingCounter st + 1 + Z.of_nat (List.length frames)) by lia.
      repeat split; congruence.
Qed.

(** C4, as the program has it.  From a streak of 0, 120 consecutive quiet
    ticks throw nothing and bring the streak to 120; it is the 121st
    that throws exactly one tomato and resets the streak to 0; and if the
    silence goes on, a further tomato is thrown every 121 ticks. *)
Theorem tomato_on_121st_quiet_tick
  (Math_sin : float -> float) (duration : float)
  (frames : list Frame) (f : Frame) (more : list Frame) (st : GameState) :
  noSingingCounter st = 0 ->
  Js.length frames = 120 ->
  Forall (quiet duration) (frames ++ [f] ++ more) ->
  let after120 := stateOf (gameLoop Math_sin duration frames st) in
  let after121 := stateOf (gameLoop Math_sin duration (frames ++ [f]) st) in
  let afterAll :=
    stateOf (gameLoop Math_sin duration (frames ++ [f] ++ more) st) in
  (tomatoes after120 = tomatoes st /\ noSingingCounter after120 = 120) /\
  (tomatoes after121 = tomatoes st ++ [tomatoId f]
   /\ noSingingCounter after121 = 0) /\
  (Js.length (tomatoes afterAll)
   = Js.length (tomatoes st) + 1 + Js.length more / 121
   /\ noSingingCounter afterAll = Js.length more mod 121).
Proof.
  intros Hc0 Hlen Hq. cbv zeta.
  apply Forall_app in Hq as [Hq1 Hq2].
  apply Forall_app in Hq2 as [Hqf Hq3].
  inversion Hqf as [|? ? Hf _]; subst.
  destruct (quiet_run_below Math_sin duration frames st Hq1)
    as (s120 & Hrun120 & _ & Hc120 & Ht120); [lia|].
  destruct (gameTick_quiet Math_sin duration f s120 Hf)
    as (s121 & Htick & _ & Hstep).
  replace (noSingingCounter s120 + 1 >? 120) with true in Hstep
    by (symmetry; apply Z.gtb_lt; lia).
  destruct Hstep as [Hc121 Ht121].
  destruct (quiet_run_counts Math_sin duration more s121 Hq3)
    as (sAll & HrunAll & _ & HcAll & HtAll); [lia|].
  rewrite !gameLoop_app, Hrun120. cbn [gameLoop app]. rewrite Htick, HrunAll.
  cbn [stateOf].
  rewrite HcAll, HtAll, Hc121, Ht121, Ht120, Hc120, Hc0, Hlen.
  unfold Js.length. rewrite length_app, Nat2Z.inj_add, !Z.add_0_l.
  cbn [List.length]. repeat split; try reflexivity; lia.
Qed.

Lemma Forall_repeat {A : Type} (P : A -> Prop) (x : A) (n : nat) :
  P x -> Forall P (repeat x n).
Proof. intros Hx. induction n; cbn; constructor; assumption. Qed.

(** 121 ticks of plain silence (loudness 0) followed by 250 more. *)
Lemma tomato_on_121st_quiet_tick_witness :
  let silent := mkFrame (Some 1%float) true 0 50 7 in
  let run n := stateOf (gameLoop (fun _ => 0%float) 100 (repeat silent n)
                          initialState) in
  (tomatoes (run 120%nat) = [] /\ noSingingCounter (run 120%nat) = 120) /\
  (tomatoes (run 121%nat) = [7%float] /\ noSingingCounter (run 121%nat) = 0) /\
  (Js.length (tomatoes (run 371%nat)) = 3 /\ noSingingCounter (run 371%nat) = 8).
Proof.
  cbv zeta.
  assert (Hq : Forall (quiet 100)
                 (repeat (mkFrame (Some 1%float) true 0 50 7) 120
                  ++ [mkFrame (Some 1%float) true 0 50 7]
                  ++ repeat (mkFrame (Some 1%float) true 0 50 7) 250)).
  { assert (Hs : quiet 100 (mkFrame (Some 1%float) true 0 50 7))
      by (repeat split; reflexivity).
    apply Forall_app; split; [apply Forall_repeat, Hs|].
    apply Forall_app; split; [repeat constructor; exact Hs|].
    apply Forall_repeat, Hs. }
  exact (tomato_on_121st_quiet_tick (fun _ => 0%float) 100
           (repeat (mkFrame (Some 1%float) true 0 50 7) 120)
           (mkFrame (Some 1%float) true 0 50 7)
           (repeat (mkFrame (Some 1%float) true 0 50 7) 250)
           initialState eq_refl eq_refl Hq).
Defined.

(** C4 as written fails: after exactly 120 quiet ticks from a streak of 0
    no tomato has been thrown and the streak stands at 120. *)
Lemma no_tomato_after_120_quiet_ticks :
  let silent := mkFrame (Some 1%float) true 0 50 7 in
  let after120 :=
    fold_left (fun st f => scoringAndTomato f 50 st) (repeat silent 120)
              initialState in
  (micVolume silent <? 0.05)%float = true /\
  tomatoes after120 = [] /\
  noSingingCounter after120 = 120.
Proof. cbv zeta. repeat split; vm_compute; reflexivity. Qed.

End ScoringEngine.

(** ** The star rating *)

Module StarRating.

Import KaraokeScreen Vocabulary.

Lemma litStars_clamps_stars score : litStars score = clamp 0 5 (stars score).
Proof.
  unfold litStars, starRow, clamp, Js.length. generalize (stars score) as q.
  intros q. cbn [map filter].
  destruct (Z.ltb_spec 0 q), (Z.ltb_spec 1 q), (Z.ltb_spec 2 q),
    (Z.ltb_spec 3 q), (Z.ltb_spec 4 q); cbn [filter List.length]; lia.
Qed.

(** C2, as the program has it.  The value [stars] derived from the score
    is the floor of score/3000 and is not clamped; what is clamped is the
    rating shown, the number of lit icons in the row of five, which is
    [clamp (floor (score / 3000)) 0 5]: none at 0, one at 3000, four at
    14999, five at 15000 and five at 100000. *)
Theorem lit_stars_are_clamped_rating (score : Z) :
  stars score = score / 3000 /\
  litStars score = clamp 0 5 (score / 3000) /\
  litStars 0 = 0 /\ litStars 3000 = 1 /\ litStars 14999 = 4 /\
  litStars 15000 = 5 /\ litStars 100000 = 5.
Proof.
  split; [reflexivity|]. split; [apply litStars_clamps_stars|].
  repeat split; reflexivity.
Qed.

(** C2 as written fails for the derived value itself: at a score of
    100000 it is 33, not 5. *)
Lemma stars_is_not_clamped :
  stars 100000 = 33 /\ clamp 0 5 (100000 / 3000) = 5 /\
  stars 100000 <> clamp 0 5 (100000 / 3000).
Proof. repeat split; vm_compute; congruence. Qed.

(** The end-of-song screen counts differently again: one star at a score
    of 0. *)
Lemma ScoreScreen_stars_at_zero : ScoreScreen.stars 0 = 1.
Proof. reflexivity. Qed.

End StarRating.

(** ** The lyric timeline *)

Module LyricTimeline.

Import KaraokeScreen Vocabulary.

(** C7.  On the lines a = [0,5) and b = [5,10): with offset 0, at time 3
    the active line is a and the next is b; at 7 the active line is b and
    there is no next line; at 12 no line is active.  After one press of
    the +0.5 button, at 4.6 the active line is already b (with offset 0 it
    is still a). *)
Theorem timeline_on_two_lines :
  let lyrics := [lineA; lineB] in
  (activeLine lyrics 3 0 = Some lineA /\ futureLine lyrics 3 0 = Some lineB) /\
  (activeLine lyrics 7 0 = Some lineB /\ futureLine lyrics 7 0 = None) /\
  activeLine lyrics 12 0 = None /\
  (activeLine lyrics 4.6 (handleAdjustSync 0 0.5) = Some lineB
   /\ activeLine lyrics 4.6 0 = Some lineA).
Proof. cbv zeta. repeat split; reflexivity. Qed.

Lemma findIndex_from_none {A : Type} (p : A -> bool) (xs : list A) :
  forall i, Forall (fun x => p x = false) xs -> Js.findIndex_from p xs i = -1.
Proof.
  induction xs as [|x xs IH]; intros i H; cbn.
  - reflexivity.
  - inversion H as [|? ? Hx Hxs]; subst. rewrite Hx. apply IH, Hxs.
Qed.

Lemma findIndex_from_found {A : Type} (p : A -> bool) (xs : list A) :
  forall i, 0 <= i -> Js.findIndex_from p xs i = -1 ->
            Forall (fun x => p x = false) xs.
Proof.
  induction xs as [|x xs IH]; intros i Hi H; cbn in H.
  - constructor.
  - destruct (p x) eqn:E; [lia|]. constructor; [exact E|].
    apply (IH (i + 1)); [lia | exact H].
Qed.

(** No line is active exactly when [findIndex] answers -1. *)
Lemma activeLineIndex_none lyrics currentTime lyricsOffset :
  activeLineIndex lyrics currentTime lyricsOffset = -1 <->
  Forall (fun line => isActiveLine currentTime lyricsOffset line = false) lyrics.
Proof.
  unfold activeLineIndex, Js.findIndex. split.
  - apply findIndex_from_found. lia.
  - apply findIndex_from_none.
Qed.

(** C10.  Whenever the lyrics are not empty and no line's interval, moved
    by the offset, contains the current time (before the first line, in a
    gap, or after the last line has ended), there is no active line and
    the line shown as next is the first line of the sequence. *)
Theorem futureLine_without_active_line_is_first
  (lyrics : list LyricLine) (currentTime lyricsOffset : float)
  (first : LyricLine) (rest : list LyricLine) :
  lyrics = first :: rest ->
  Forall (fun line => isActiveLine currentTime lyricsOffset line = false) lyrics ->
  activeLine lyrics currentTime lyricsOffset = None /\
  futureLine lyrics currentTime lyricsOffset = Some first.
Proof.
  intros -> Hnone. apply activeLineIndex_none in Hnone.
  unfold activeLine, futureLine. rewrite Hnone. split; [reflexivity|].
  unfold Js.length. cbn [List.length].
  replace (-1 <? Z.of_nat (S (List.length rest)) - 1) with true
    by (symmetry; apply Z.ltb_lt; lia).
  reflexivity.
Qed.

(** After the song's last line has ended (time 12 on the two lines
    above), the "next" line is a again. *)
Lemma futureLine_without_active_line_is_first_witness :
  activeLine [lineA; lineB] 12 0 = None /\
  futureLine [lineA; lineB] 12 0 = Some lineA.
Proof.
  apply (futureLine_without_active_line_is_first [lineA; lineB] 12 0
           lineA [lineB] eq_refl).
  repeat constructor.
Defined.

End LyricTimeline.

(** ** Loudness *)

Module Loudness.

Import PitchDetection Vocabulary.

(** C6 does not hold of the program.  The root mean square of the byte
    amplitudes is divided by 128, not by the largest amplitude 255, and
    nothing clips the quotient: on the saturated frame the loudness
    reported is 1.9921875. *)
Theorem rms_exceeds_one :
  rms saturatedFrame = 1.9921875%float /\
  (1 <? rms saturatedFrame)%float = true /\
  (forall dataArray sampleRate,
     fst (processAudio dataArray saturatedFrame sampleRate) = 1.9921875%float).
Proof.
  split; [vm_compute; reflexivity|]. split; [vm_compute; reflexivity|].
  intros dataArray sampleRate. unfold processAudio. cbn [fst].
  vm_compute. reflexivity.
Qed.

End Loudness.

(** ** Session start *)

Module SessionStart.

Import App Vocabulary.

Lemma matchLine_of_timestamp line :
  hasTimestamp line = true -> exists groups, matchLine line = Some groups.
Proof.
  unfold hasTimestamp, matchLine.
  destruct (timestamp line) as [[[[min sec] ms] rest]|]; [|discriminate].
  intros _. eexists; reflexivity.
Qed.

(** On lines that carry a timestamp the loop never skips: one lyric line
    per input line. *)
Lemma parseLines_length lines :
  Forall (fun line => hasTimestamp line = true) lines ->
  List.length (parseLines lines) = List.length lines.
Proof.
  induction lines as [|line lines IH]; intros H; cbn [parseLines].
  - reflexivity.
  - inversion H as [|? ? Hl Hrest]; subst.
    destruct (matchLine_of_timestamp line Hl) as ([[[min sec] ms] txt] & ->).
    cbn [List.length]. rewrite IH by exact Hrest. reflexivity.
Qed.

Lemma fixLastLine_length timedLyrics :
  List.length (fixLastLine timedLyrics) = List.length timedLyrics.
Proof.
  unfold fixLastLine.
  destruct (rev timedLyrics) as [|lastLine before] eqn:E; [reflexivity|].
  destruct (endTime lastLine =? SONG_DURATION_S)%float; [|reflexivity].
  rewrite length_app, length_rev. cbn [List.length].
  rewrite <- (length_rev timedLyrics), E. cbn [List.length]. lia.
Qed.

(** [parseLRC] keeps exactly the lines that start with a timestamp. *)
Lemma parseLRC_length lrcText :
  List.length (parseLRC lrcText)
  = List.length (filter hasTimestamp (split lrcText)).
Proof.
  unfold parseLRC, Js.length.
  destruct (filter hasTimestamp (split lrcText)) as [|line lines] eqn:E.
  - reflexivity.
  - replace (Z.of_nat (List.length (line :: lines)) =? 0) with false
      by (symmetry; apply Z.eqb_neq; cbn [List.length]; lia).
    rewrite fixLastLine_length, parseLines_length; [reflexivity|].
    rewrite <- E. apply Forall_forall. intros l Hl.
    apply filter_In in Hl. apply Hl.
Qed.

(** Zero usable lines means: no line of the text starts with a
    timestamp. *)
Lemma parseLRC_nil_iff lrcText :
  parseLRC lrcText = [] <->
  Forall (fun line => hasTimestamp line = false) (split lrcText).
Proof.
  rewrite <- length_zero_iff_nil, parseLRC_length, length_zero_iff_nil.
  induction (split lrcText) as [|line lines IH]; cbn [filter].
  - split; [constructor | reflexivity].
  - destruct (hasTimestamp line) eqn:E.
    + split; [discriminate|]. intros H. inversion H; congruence.
    + rewrite IH. split; intros H.
      * constructor; assumption.
      * inversion H; assumption.
Qed.

(** A session that has begun has lyrics. *)
Lemma started_session_has_lyrics details fetched st :
  appState (handleStartKaraoke details fetched st) = KARAOKE ->
  lyrics (handleStartKaraoke details fetched st) <> [].
Proof.
  unfold handleStartKaraoke, Js.length.
  destruct fetched as [lrc|message]; [|discriminate].
  destruct (parseLRC lrc) as [|l ls]; [discriminate|].
  cbn. discriminate.
Qed.

(** The karaoke screen is only ever mounted on a non-empty timeline. *)
Lemma renderContent_karaoke_has_lyrics st details timeline duration :
  fst (renderContent st) = Some (KaraokeScreenView details timeline duration) ->
  timeline <> [].
Proof.
  unfold renderContent, Js.length.
  destruct (appState st); try discriminate.
  destruct (songDetails st); [|discriminate].
  destruct (lyrics st) as [|l ls] eqn:E; [discriminate|].
  cbn. intros H. injection H as _ <- _. discriminate.
Qed.

(** C9.  When the fetched text yields no lyric line, which is exactly
    when none of its lines parses as a timestamped line, session start
    fails: the application is back on the home screen showing the error
    message, and nothing of the session (lyrics, song, history) was set.
    And whatever the lyrics source returned, the state after
    [handleStartKaraoke] is never a karaoke session with an empty
    timeline. *)
Theorem empty_lyrics_fail_session_start
  (details : SongDetails) (lyricsLRC : string) (st : State) :
  parseLRC lyricsLRC = [] ->
  let st' := handleStartKaraoke details (Resolved lyricsLRC) st in
  Forall (fun line => hasTimestamp line = false) (split lyricsLRC) /\
  appState st' = HOME /\
  error st' = Some ("Falha ao iniciar o karaokê. " ++ emptyLyricsMessage)%string /\
  lyrics st' = lyrics st /\ songDetails st' = songDetails st /\
  history st' = history st /\
  fst (renderContent st') = Some (HomeScreenView false (error st')) /\
  (forall fetched st0,
     appState (handleStartKaraoke details fetched st0) = KARAOKE ->
     lyrics (handleStartKaraoke details fetched st0) <> []).
Proof.
  intros Hnil. cbv zeta. split; [apply parseLRC_nil_iff, Hnil|].
  unfold handleStartKaraoke. rewrite Hnil. cbn.
  repeat split. intros fetched st0. apply started_session_has_lyrics.
Qed.

(** A reply in which no line carries a well-formed timestamp. *)
Lemma empty_lyrics_fail_session_start_witness :
  appState (handleStartKaraoke sampleSong (Resolved unsyncedText) initialState)
  = HOME /\
  error (handleStartKaraoke sampleSong (Resolved unsyncedText) initialState)
  = Some ("Falha ao iniciar o karaokê. " ++ emptyLyricsMessage)%string.
Proof.
  destruct (empty_lyrics_fail_session_start sampleSong unsyncedText initialState
              eq_refl) as (_ & Hhome & Herr & _).
  split; [exact Hhome | exact Herr].
Defined.

End SessionStart.

(** ** The pitch estimator *)

Module PitchEstimator.

Import PitchDetection Vocabulary.

Lemma In_range lo hi L : In L (range lo hi) <-> lo <= L < hi.
Proof.
  unfold range. rewrite in_map_iff. split.
  - intros (k & <- & Hk). apply in_seq in Hk. lia.
  - intros H. exists (Z.to_nat (L - lo)). split; [lia|].
    apply in_seq. lia.
Qed.

(** The lags visited are the integers from 80 that are below half the
    buffer length. *)
Lemma In_candidateOffsets buffer L :
  In L (candidateOffsets buffer) <-> 80 <= L /\ 2 * L < Js.length buffer.
Proof.
  unfold candidateOffsets, halfCount. rewrite In_range.
  pose proof (Z.div_mod (Js.length buffer + 1) 2 ltac:(lia)).
  pose proof (Z.mod_pos_bound (Js.length buffer + 1) 2 ltac:(lia)).
  lia.
Qed.

Lemma bestSoFar_ordered buffer seen best :
  bestSoFar buffer seen best -> (fst best =? fst best)%float = true.
Proof.
  intros [_ [-> | (_ & _ & Hpos)]]; [reflexivity|].
  apply FloatOrder.ltb_ordered_r in Hpos. exact Hpos.
Qed.

Lemma visit_bestSoFar buffer seen best offset :
  bestSoFar buffer seen best ->
  bestSoFar buffer (seen ++ [offset]) (visit buffer best offset).
Proof.
  intros [Hmax Hbest]. unfold visit, Js.gt.
  destruct (fst best <? correlation buffer offset)%float eqn:E.
  - split; cbn [fst snd].
    + intros L HL. apply in_app_or in HL as [HL | [<- | []]].
      * destruct (correlation buffer offset <? correlation buffer L)%float eqn:E';
          [|reflexivity].
        pose proof (FloatOrder.ltb_trans _ _ _ E E') as Hc.
        rewrite (Hmax L HL) in Hc. discriminate.
      * apply FloatOrder.ltb_irrefl.
    + right. split; [apply in_or_app; right; left; reflexivity|].
      split; [reflexivity|].
      destruct Hbest as [-> | (_ & _ & Hpos)]; [exact E|].
      exact (FloatOrder.ltb_trans _ _ _ Hpos E).
  - split.
    + intros L HL. apply in_app_or in HL as [HL | [<- | []]];
        [apply Hmax, HL | exact E].
    + destruct Hbest as [-> | (Hin & Heq & Hpos)]; [left; reflexivity|].
      right. split; [apply in_or_app; left; exact Hin|]. split; assumption.
Qed.

Lemma fold_visit_bestSoFar buffer offsets :
  forall seen best,
    bestSoFar buffer seen best ->
    bestSoFar buffer (seen ++ offsets) (fold_left (visit buffer) offsets best).
Proof.
  induction offsets as [|offset offsets IH]; intros seen best H; cbn [fold_left].
  - rewrite app_nil_r. exact H.
  - replace (seen ++ offset :: offsets) with ((seen ++ [offset]) ++ offsets)
      by (rewrite <- app_assoc; reflexivity).
    apply IH, visit_bestSoFar, H.
Qed.

Lemma scan_bestSoFar buffer :
  bestSoFar buffer (candidateOffsets buffer) (scan buffer).
Proof.
  apply (fold_visit_bestSoFar buffer (candidateOffsets buffer) [] (0%float, -1)).
  split; [intros L []|]. left. reflexivity.
Qed.

(** The indices summed are the integers from 0 that are below half the
    buffer length. *)
Lemma In_summed buffer i :
  In i (range 0 (halfCount buffer)) <-> 0 <= i /\ 2 * i < Js.length buffer.
Proof.
  unfold halfCount. rewrite In_range.
  pose proof (Z.div_mod (Js.length buffer + 1) 2 ltac:(lia)).
  pose proof (Z.mod_pos_bound (Js.length buffer + 1) 2 ltac:(lia)).
  lia.
Qed.

(** Inside the array a sample is the element at its index. *)
Lemma sample_inside buffer k :
  (k < List.length buffer)%nat -> sample buffer (Z.of_nat k) = nth k buffer 0%float.
Proof.
  intros Hk. unfold sample, Js.get.
  destruct (Z.ltb_spec (Z.of_nat k) 0) as [Hneg|_]; [lia|].
  rewrite Nat2Z.id, (nth_error_nth' buffer 0%float Hk). reflexivity.
Qed.

(** The inner loop over indices that stay inside the array, together
    with the lag, adds the products of the specification. *)
Lemma inner_loop_adds_lagProducts buffer L indices :
  0 <= L ->
  (forall k, In k indices -> (k + Z.to_nat L < List.length buffer)%nat) ->
  forall correlation0,
    fold_left
      (fun correlation i =>
         (correlation + sample buffer i * sample buffer (i + L))%float)
      (map (fun k => 0 + Z.of_nat k) indices) correlation0
    = fold_left PrimFloat.add
        (map (fun i => (nth i buffer 0 * nth (i + Z.to_nat L) buffer 0)%float)
             indices)
        correlation0.
Proof.
  intros HL. induction indices as [|k indices IH]; intros Hin c0; [reflexivity|].
  cbn [map fold_left].
  pose proof (Hin k (or_introl eq_refl)) as Hk.
  rewrite Z.add_0_l.
  replace (Z.of_nat k + L) with (Z.of_nat (k + Z.to_nat L)) by lia.
  rewrite !sample_inside by lia.
  apply IH. intros k' Hk'. apply Hin. right. exact Hk'.
Qed.

(** The indices below half the length are the first [halfCount] ones. *)
Lemma indices_below_half (n visited : nat) :
  filter (fun i => (2 * i <? n)%nat) (seq 0 visited)
  = seq 0 (Nat.min visited (Z.to_nat ((Z.of_nat n + 1) / 2))).
Proof.
  pose proof (Z.div_mod (Z.of_nat n + 1) 2 ltac:(lia)) as Hdiv.
  pose proof (Z.mod_pos_bound (Z.of_nat n + 1) 2 ltac:(lia)) as Hmod.
  induction visited as [|visited IH]; [reflexivity|].
  rewrite seq_S, filter_app, IH. cbn [filter Nat.add].
  destruct (Nat.ltb_spec (2 * visited) n) as [Hlt|Hge].
  - replace (Nat.min visited _) with visited by lia.
    replace (Nat.min (S visited) _) with (S visited) by lia.
    rewrite seq_S. reflexivity.
  - rewrite app_nil_r. f_equal. lia.
Qed.

(** On every lag the loop visits, the correlation computed is the
    specification's, and no sample is read outside the buffer. *)
Lemma correlation_is_normalizedCorrelation buffer L :
  In L (candidateOffsets buffer) ->
  correlation buffer L = normalizedCorrelation buffer (Z.to_nat L).
Proof.
  intros HL. apply In_candidateOffsets in HL as [H80 Hhalf].
  unfold Js.length in Hhalf.
  unfold correlation, normalizedCorrelation, halfLength, Js.length.
  f_equal.
  unfold sumProducts, lagProducts, range, halfCount, Js.length.
  rewrite Z.sub_0_r, indices_below_half.
  pose proof (Z.div_mod (Z.of_nat (List.length buffer) + 1) 2 ltac:(lia)).
  pose proof (Z.mod_pos_bound (Z.of_nat (List.length buffer) + 1) 2 ltac:(lia)).
  replace (Nat.min _ _)
    with (Z.to_nat ((Z.of_nat (List.length buffer) + 1) / 2)) by lia.
  apply inner_loop_adds_lagProducts; [lia|].
  intros k Hk. apply in_seq in Hk. lia.
Qed.

(** C3.  The estimator visits the lags L with 80 <= L < N/2: the lag N/2
    itself is not visited.  For each of them it computes the
    specification's normalized correlation, the sum of x[i]*x[i+L] over
    the indices i below N/2 divided by N/2, reading only samples of the
    buffer.  Then either some visited lag has a correlation above 0.1,
    and the answer is the sample rate divided by a visited lag whose
    correlation is above 0.1 and is exceeded by that of no other visited
    lag; or no visited lag has a correlation above 0.1 and the answer is
    0.  A noise buffer yields 0 in the second case only. *)
Theorem findFundamentalFreq_selects_max_lag
  (buffer : list float) (sampleRate : float) :
  (forall L, In L (candidateOffsets buffer)
             <-> 80 <= L /\ 2 * L < Js.length buffer) /\
  (forall i, In i (range 0 (halfCount buffer))
             <-> 0 <= i /\ 2 * i < Js.length buffer) /\
  (forall L, In L (candidateOffsets buffer) ->
             correlation buffer L = normalizedCorrelation buffer (Z.to_nat L)) /\
  ((exists bestLag,
       In bestLag (candidateOffsets buffer) /\
       (0.1 <? normalizedCorrelation buffer (Z.to_nat bestLag))%float = true /\
       (forall L, In L (candidateOffsets buffer) ->
                  (normalizedCorrelation buffer (Z.to_nat bestLag)
                   <? normalizedCorrelation buffer (Z.to_nat L))%float = false) /\
       findFundamentalFreq buffer sampleRate
       = (sampleRate / Js.of_int bestLag)%float)
   \/
   ((forall L, In L (candidateOffsets buffer) ->
               (0.1 <? normalizedCorrelation buffer (Z.to_nat L))%float = false) /\
    findFundamentalFreq buffer sampleRate = 0%float)).
Proof.
  split; [intros L; apply In_candidateOffsets|].
  split; [intros i; apply In_summed|].
  split; [intros L; apply correlation_is_normalizedCorrelation|].
  pose proof (scan_bestSoFar buffer) as Hinv.
  pose proof (bestSoFar_ordered _ _ _ Hinv) as Hord.
  destruct Hinv as [Hmax Hbest].
  unfold findFundamentalFreq, Js.gt, threshold.
  destruct (scan buffer) as [bestCorrelation bestOffset]. cbn [fst snd] in *.
  destruct (0.1 <? bestCorrelation)%float eqn:E.
  - left. exists bestOffset.
    destruct Hbest as [Hinit | (Hin & Heq & _)].
    + injection Hinit as -> ->. discriminate E.
    + split; [exact Hin|].
      rewrite <- (correlation_is_normalizedCorrelation _ _ Hin), <- Heq.
      split; [exact E|]. split; [|reflexivity].
      intros L HL.
      rewrite <- (correlation_is_normalizedCorrelation _ _ HL).
      apply Hmax, HL.
  - right. split; [|reflexivity].
    intros L HL.
    rewrite <- (correlation_is_normalizedCorrelation _ _ HL).
    destruct (0.1 <? correlation buffer L)%float eqn:E'; [|reflexivity].
    rewrite (FloatOrder.ltb_below_bound _ _ _ E' (Hmax L HL) Hord) in E.
    discriminate.
Qed.

(** C3 as the specification words it fails in two ways.

    The lag N/2 is not searched.  A square wave with a period of 200
    samples, in a buffer of N = 400 samples, has its largest correlation,
    1, at the lag 200 = N/2; the estimator stops at the lag 199, whose
    correlation is 0.98, and answers 44100/199 where the lag of maximum
    correlation gives 44100/200 = 220.5.  With a period of 80 samples in
    a buffer of N = 160 samples the only lag from 80 up to N/2 is 80, its
    correlation is 1, and the estimator answers 0.

    Noise can have a pitch.  A buffer of 400 pseudo-random samples in
    [-1, 1] has a correlation above 0.1 at the lag 150, and the estimator
    answers 44100/150 = 294, not 0. *)
Example estimator_skips_lag_N_over_2_and_hears_noise :
  (Js.length (squareWave 200 400) = 2 * 200 /\
   normalizedCorrelation (squareWave 200 400) 200 = 1%float /\
   normalizedCorrelation (squareWave 200 400) 199 = 0.98%float /\
   findFundamentalFreq (squareWave 200 400) 44100 = (44100 / 199)%float /\
   (44100 / 199 =? 220.5)%float = false) /\
  (Js.length (squareWave 80 160) = 2 * 80 /\
   normalizedCorrelation (squareWave 80 160) 80 = 1%float /\
   findFundamentalFreq (squareWave 80 160) 44100 = 0%float) /\
  (Forall (fun x => (-1 <=? x)%float = true /\ (x <=? 1)%float = true)
          (noise 400 1125) /\
   (0.1 <? normalizedCorrelation (noise 400 1125) 150)%float = true /\
   findFundamentalFreq (noise 400 1125) 44100 = 294%float).
Proof.
  split; [|split].
  - repeat apply conj; vm_compute; reflexivity.
  - repeat apply conj; vm_compute; reflexivity.
  - split; [|split; vm_compute; reflexivity].
    apply Forall_forall. intros x Hx.
    apply in_map_iff in Hx as (z & <- & _).
    pose proof (Z.mod_pos_bound (z / 65536) 2049 ltac:(lia)) as Hz.
    assert (Hall : forallb
                     (fun k => let x := (Js.of_int (k - 1024) / 1024)%float in
                               (-1 <=? x)%float && (x <=? 1)%float)
                     (range 0 2049) = true) by (vm_compute; reflexivity).
    rewrite forallb_forall in Hall.
    specialize (Hall ((z / 65536) mod 2049)).
    cbv zeta in Hall. apply andb_prop, Hall, In_range. lia.
Qed.

(** A buffer of 400 samples of a square wave with a period of 100
    samples, at 44100 samples per second: 441 Hz. *)
Example findFundamentalFreq_square_wave :
  scan (squareWave 100 400) = (1%float, 100) /\
  findFundamentalFreq (squareWave 100 400) 44100 = 441%float.
Proof. split; vm_compute; reflexivity. Qed.

(** A buffer of 400 samples of pseudo-random noise whose correlations
    all stay below the threshold: no pitch. *)
Example findFundamentalFreq_noise :
  (fst (scan (noise 400 1)) <? threshold)%float = true /\
  findFundamentalFreq (noise 400 1) 44100 = 0%float.
Proof. split; vm_compute; reflexivity. Qed.

End PitchEstimator.

(** ** The song history *)

Module HistoryProperties.

Import SongHistory Vocabulary.

Lemma In_firstn {A : Type} (x : A) (n : nat) (l : list A) :
  In x (firstn n l) -> In x l.
Proof.
  revert n. induction l as [|y l IH]; intros [|n]; cbn; try tauto.
  intros [-> | H]; [left; reflexivity | right; apply (IH n H)].
Qed.

Lemma NoDup_firstn {A : Type} (n : nat) (l : list A) :
  NoDup l -> NoDup (firstn n l).
Proof.
  revert n. induction l as [|x l IH]; intros [|n] H; cbn; try constructor.
  - inversion H as [|? ? Hx Hl]; subst. intros Hin.
    apply Hx. apply (In_firstn _ _ _ Hin).
  - inversion H; subst. apply IH. assumption.
Qed.

Lemma filtered_urls_stay_distinct (keep : SongDetails -> bool) prevHistory :
  NoDup (map youtubeUrl prevHistory) ->
  NoDup (map youtubeUrl (filter keep prevHistory)).
Proof.
  induction prevHistory as [|item rest IH]; cbn [map filter]; intros Hnd.
  - constructor.
  - apply NoDup_cons_iff in Hnd as [Hfresh Hrest].
    destruct (keep item); cbn [map]; [|exact (IH Hrest)].
    apply NoDup_cons_iff. split; [|exact (IH Hrest)].
    rewrite in_map_iff. intros (other & Hurl & Hin).
    apply Hfresh, in_map_iff. exists other.
    apply filter_In in Hin as [Hin _]. split; assumption.
Qed.

Lemma url_not_in_filtered song prevHistory :
  ~ In (youtubeUrl song)
       (map youtubeUrl
          (filter (fun item => negb (String.eqb (youtubeUrl item) (youtubeUrl song)))
                  prevHistory)).
Proof.
  intros Hin. apply in_map_iff in Hin as (y & Hy & Hin).
  apply filter_In in Hin as [_ Hne].
  rewrite Hy, String.eqb_refl in Hne. discriminate.
Qed.

Lemma addSongToHistory_length song prevHistory :
  (List.length (addSongToHistory song prevHistory) <= 5)%nat.
Proof. unfold addSongToHistory. apply firstn_le_length. Qed.

Lemma addSongToHistory_NoDup song prevHistory :
  NoDup (map youtubeUrl prevHistory) ->
  NoDup (map youtubeUrl (addSongToHistory song prevHistory)).
Proof.
  intros H. unfold addSongToHistory. rewrite <- firstn_map.
  apply NoDup_firstn. cbn [map]. constructor.
  - apply url_not_in_filtered.
  - apply filtered_urls_stay_distinct, H.
Qed.

(** X1.  The history keeps its shape through any sequence of songs: from
    a stored history of at most five songs with distinct URLs, it still
    holds at most five songs, no two with the same URL. *)
Theorem history_stays_bounded_and_distinct
  (songs stored : list SongDetails) :
  (List.length stored <= 5)%nat ->
  NoDup (map youtubeUrl stored) ->
  (List.length (played songs stored) <= 5)%nat /\
  NoDup (map youtubeUrl (played songs stored)).
Proof.
  unfold played. revert stored.
  induction songs as [|song songs IH]; intros stored Hlen Hnd; cbn [fold_left].
  - split; assumption.
  - apply IH; [apply addSongToHistory_length | apply addSongToHistory_NoDup, Hnd].
Qed.

(** Seven starts from an empty history, one song twice. *)
Lemma history_stays_bounded_and_distinct_witness :
  (List.length
     (played [songA; songB; songN 0; songA; songN 1; songN 2; songN 3] []) <= 5)%nat
  /\ NoDup (map youtubeUrl
              (played [songA; songB; songN 0; songA; songN 1; songN 2; songN 3] [])).
Proof.
  apply (history_stays_bounded_and_distinct
           [songA; songB; songN 0; songA; songN 1; songN 2; songN 3] []).
  - cbn. lia.
  - constructor.
Defined.

Lemma filter_shrinks {A : Type} (p : A -> bool) (l : list A) (x : A) :
  In x l -> p x = false ->
  (List.length (filter p l) < List.length l)%nat.
Proof.
  induction l as [|y l IH]; cbn; intros Hin Hp; [contradiction|].
  destruct Hin as [-> | Hin].
  - rewrite Hp. pose proof (filter_length_le p l). lia.
  - specialize (IH Hin Hp). destruct (p y); cbn; lia.
Qed.

Lemma filter_all {A : Type} (p : A -> bool) (l : list A) :
  Forall (fun x => p x = true) l -> filter p l = l.
Proof.
  induction 1 as [|x l Hx _ IH]; cbn; [reflexivity|].
  rewrite Hx, IH. reflexivity.
Qed.

(** X2.  Starting a song that is already in the history (of at most five
    songs) moves it to the front and evicts nothing: the other entries
    all stay, in their order. *)
Theorem replayed_song_moves_to_front
  (song old : SongDetails) (prevHistory : list SongDetails) :
  (List.length prevHistory <= 5)%nat ->
  In old prevHistory ->
  youtubeUrl old = youtubeUrl song ->
  addSongToHistory song prevHistory
  = song :: filter (fun item =>
                      negb (String.eqb (youtubeUrl item) (youtubeUrl song)))
                   prevHistory
  /\ (forall item, In item prevHistory ->
                   youtubeUrl item <> youtubeUrl song ->
                   In item (addSongToHistory song prevHistory)).
Proof.
  intros Hlen Hin Hurl.
  assert (Heq : addSongToHistory song prevHistory
                = song :: filter (fun item =>
                                    negb (String.eqb (youtubeUrl item) (youtubeUrl song)))
                                 prevHistory).
  { unfold addSongToHistory. apply firstn_all2. cbn [List.length].
    pose proof (filter_shrinks
                  (fun item => negb (String.eqb (youtubeUrl item) (youtubeUrl song)))
                  prevHistory old Hin) as Hs.
    cbv beta in Hs. rewrite Hurl, String.eqb_refl in Hs.
    specialize (Hs eq_refl). unfold MAX_HISTORY_SIZE. lia. }
  split; [exact Heq|].
  intros item Hitem Hne. rewrite Heq. right.
  apply filter_In. split; [exact Hitem|].
  apply negb_true_iff, String.eqb_neq, Hne.
Qed.

Lemma replayed_song_moves_to_front_witness :
  addSongToHistory songA [songB; songA; songN 0; songN 1; songN 2]
  = [songA; songB; songN 0; songN 1; songN 2].
Proof.
  destruct (replayed_song_moves_to_front songA songA
              [songB; songA; songN 0; songN 1; songN 2]
              ltac:(cbn; lia) ltac:(cbn; tauto) eq_refl) as [H _].
  exact H.
Defined.

(** X3.  Starting a song that is not in a full history (five songs)
    evicts exactly the last, oldest entry. *)
Theorem new_song_evicts_oldest
  (song : SongDetails) (prevHistory : list SongDetails) :
  List.length prevHistory = 5%nat ->
  ~ In (youtubeUrl song) (map youtubeUrl prevHistory) ->
  addSongToHistory song prevHistory = song :: removelast prevHistory.
Proof.
  intros Hlen Hnew. unfold addSongToHistory.
  rewrite filter_all.
  - unfold MAX_HISTORY_SIZE. cbn [firstn]. f_equal.
    rewrite removelast_firstn_len, Hlen. reflexivity.
  - apply Forall_forall. intros item Hitem.
    apply negb_true_iff, String.eqb_neq. intros Heq.
    apply Hnew. rewrite <- Heq. apply in_map, Hitem.
Qed.

Lemma new_song_evicts_oldest_witness :
  addSongToHistory songA [songB; songN 0; songN 1; songN 2; songN 3]
  = [songA; songB; songN 0; songN 1; songN 2].
Proof.
  apply (new_song_evicts_oldest songA
           [songB; songN 0; songN 1; songN 2; songN 3] eq_refl).
  cbn. intros H.
  repeat (destruct H as [H | H]; [discriminate H|]). exact H.
Defined.

End HistoryProperties.

(** ** The game loop over a whole song *)

Module LoopProperties.

Import KaraokeScreen Vocabulary.

(** What one pass through the scoring block can do: add at most 5 points,
    keep the streak within 0..120, and append at most one tomato, which
    costs a streak of 121. *)
Lemma scoringAndTomato_step f targetPitch st :
  0 <= noSingingCounter st <= 120 ->
  let st' := scoringAndTomato f targetPitch st in
  score st' <= score st + 5 /\
  0 <= noSingingCounter st' <= 120 /\
  exists new,
    tomatoes st' = tomatoes st ++ new /\
    121 * Js.length new + noSingingCounter st' <= noSingingCounter st + 1.
Proof.
  intros Hc. unfold scoringAndTomato, Js.length.
  destruct (isMicReady f).
  - destruct (Js.gt (micVolume f) 0.05); cbn [noSingingCounter score tomatoes].
    + replace (0 >? 120) with false by reflexivity.
      cbn [noSingingCounter score tomatoes].
      repeat split;
        try (destruct (_ <? 10)%float; [|destruct (_ <? 20)%float]; lia); try lia.
      exists []. rewrite app_nil_r. cbn. split; [reflexivity | lia].
    + destruct (Z.gtb_spec (noSingingCounter st + 1) 120);
        cbn [noSingingCounter score tomatoes].
      * repeat split; try lia.
        exists [tomatoId f]. cbn. split; [reflexivity | lia].
      * repeat split; try lia.
        exists []. rewrite app_nil_r. cbn. split; [reflexivity | lia].
  - repeat split; try lia.
    exists []. rewrite app_nil_r. cbn. split; [reflexivity | lia].
Qed.

Lemma gameTick_step Math_sin duration f st :
  0 <= noSingingCounter st <= 120 ->
  let st' := stateOf (gameTick Math_sin duration f st) in
  score st' <= score st + 5 /\
  0 <= noSingingCounter st' <= 120 /\
  exists new,
    tomatoes st' = tomatoes st ++ new /\
    121 * Js.length new + noSingingCounter st' <= noSingingCounter st + 1.
Proof.
  intros Hc. unfold gameTick.
  destruct (Js.ge (newTimeOf f) duration); cbn [stateOf].
  - cbn [score noSingingCounter tomatoes]. repeat split; try lia.
    exists []. rewrite app_nil_r. cbn. split; [reflexivity | lia].
  - apply (scoringAndTomato_step f _
             {| currentTime := newTimeOf f; score := score st;
                noSingingCounter := noSingingCounter st;
                tomatoes := tomatoes st |} Hc).
Qed.

Lemma gameTick_score_step Math_sin duration f st :
  score (stateOf (gameTick Math_sin duration f st)) <= score st + 5.
Proof.
  unfold gameTick, scoringAndTomato.
  repeat match goal with |- context [if ?b then _ else _] => destruct b end;
    cbn; lia.
Qed.

Lemma gameLoop_steps Math_sin duration frames :
  forall st,
    0 <= noSingingCounter st <= 120 ->
    let st' := stateOf (gameLoop Math_sin duration frames st) in
    score st' <= score st + 5 * Js.length frames /\
    0 <= noSingingCounter st' <= 120 /\
    exists new,
      tomatoes st' = tomatoes st ++ new /\
      121 * Js.length new + noSingingCounter st'
      <= noSingingCounter st + Js.length frames.
Proof.
  unfold Js.length.
  induction frames as [|f frames IH]; intros st Hc; cbn [gameLoop].
  - cbn. repeat split; try lia. exists []. rewrite app_nil_r. cbn.
    split; [reflexivity | lia].
  - pose proof (gameTick_step Math_sin duration f st Hc) as Hstep.
    cbv zeta in Hstep.
    destruct (gameTick Math_sin duration f st) as [st1|st1 sc];
      cbn [stateOf] in *; destruct Hstep as (Hs & Hc1 & new1 & Ht1 & Hp1).
    + destruct (IH st1 Hc1) as (Hs' & Hc' & new & Ht & Hp).
      cbn [List.length]. repeat split; try lia.
      exists (new1 ++ new). rewrite Ht, Ht1, app_assoc, length_app.
      split; [reflexivity | unfold Js.length in *; lia].
    + cbn [List.length]. repeat split; try lia.
      exists new1. split; [exact Ht1 | unfold Js.length in *; lia].
Qed.

(** X4.  A tick is worth at most 5 points: over any sequence of frames the
    score grows by no more than five times their number. *)
Theorem score_grows_at_most_5_per_tick
  (Math_sin : float -> float) (duration : float)
  (frames : list Frame) (st : GameState) :
  score (stateOf (gameLoop Math_sin duration frames st))
  <= score st + 5 * Js.length frames.
Proof.
  unfold Js.length. revert st.
  induction frames as [|f frames IH]; intros st; cbn [gameLoop].
  - cbn. lia.
  - pose proof (gameTick_score_step Math_sin duration f st) as Hstep.
    destruct (gameTick Math_sin duration f st) as [st1|st1 sc];
      cbn [stateOf List.length] in *.
    + specialize (IH st1). lia.
    + lia.
Qed.

(** X5.  Between ticks the silence streak of a session is always between
    0 and 120. *)
Theorem silence_streak_stays_within_120
  (Math_sin : float -> float) (duration : float) (frames : list Frame) :
  0 <= noSingingCounter
         (stateOf (gameLoop Math_sin duration frames initialState)) <= 120.
Proof.
  apply (gameLoop_steps Math_sin duration frames initialState). cbn. lia.
Qed.

(** X6.  Ticks never take a pending tomato away, they only append new
    ones, and every tomato thrown costs 121 ticks of streak: from a streak
    within 0..120, the tomatoes thrown over a sequence of frames number at
    most (streak + number of frames) / 121. *)
Theorem tomatoes_at_most_one_per_121_ticks
  (Math_sin : float -> float) (duration : float)
  (frames : list Frame) (st : GameState) :
  0 <= noSingingCounter st <= 120 ->
  exists new,
    tomatoes (stateOf (gameLoop Math_sin duration frames st))
    = tomatoes st ++ new /\
    Js.length new <= (noSingingCounter st + Js.length frames) / 121.
Proof.
  intros Hc.
  destruct (gameLoop_steps Math_sin duration frames st Hc)
    as (_ & Hc' & new & Ht & Hp).
  exists new. split; [exact Ht|].
  apply Z.div_le_lower_bound; lia.
Qed.

Lemma tomatoes_at_most_one_per_121_ticks_witness :
  exists new,
    tomatoes (stateOf (gameLoop (fun _ => 0%float) 100
                         (repeat silentFrame 200 ++ [sungFrame]) initialState))
    = [] ++ new /\
    Js.length new <= (0 + Js.length (repeat silentFrame 200 ++ [sungFrame])) / 121.
Proof.
  apply (tomatoes_at_most_one_per_121_ticks (fun _ => 0%float) 100
           (repeat silentFrame 200 ++ [sungFrame]) initialState).
  cbn. lia.
Defined.

(** X7.  The first frame whose time has reached the duration ends the
    song: [onSongEnd] receives exactly the score earned by the frames
    before it, the frame itself scores nothing, and the frames after it
    are never processed. *)
Theorem song_end_reports_earned_score
  (Math_sin : float -> float) (duration : float)
  (frames : list Frame) (f : Frame) (more : list Frame)
  (st st1 : GameState) :
  gameLoop Math_sin duration frames st = NextFrame st1 ->
  Js.ge (newTimeOf f) duration = true ->
  gameLoop Math_sin duration (frames ++ f :: more) st
  = SongEnd {| currentTime := newTimeOf f; score := score st1;
               noSingingCounter := noSingingCounter st1;
               tomatoes := tomatoes st1 |}
            (score st1).
Proof.
  intros Hrun Hend.
  rewrite ScoringEngine.gameLoop_app, Hrun. cbn [gameLoop].
  unfold gameTick. rewrite Hend. reflexivity.
Qed.

Lemma song_end_reports_earned_score_witness :
  gameLoop (fun _ => 0%float) 100
    ([sungFrame; sungFrame] ++ lateFrame :: [sungFrame; sungFrame]) initialState
  = SongEnd {| currentTime := 100; score := 10; noSingingCounter := 0;
               tomatoes := [] |} 10.
Proof.
  exact (song_end_reports_earned_score (fun _ => 0%float) 100
           [sungFrame; sungFrame] lateFrame [sungFrame; sungFrame]
           initialState
           {| currentTime := 1; score := 10; noSingingCounter := 0;
              tomatoes := [] |} eq_refl eq_refl).
Defined.

(** X8.  A tomato that was thrown with a fresh id (a number, different
    from the ids pending) is taken away again by [removeTomato], which
    leaves the pending ones as they were; and removing an id that is not
    pending changes nothing. *)
Theorem removeTomato_undoes_throw (id : float) (pending : list float) :
  (id =? id)%float = true ->
  Forall (fun t => (t =? id)%float = false) pending ->
  removeTomato id (pending ++ [id]) = pending /\
  removeTomato id pending = pending.
Proof.
  intros Hid Hfresh.
  assert (Hsame : removeTomato id pending = pending).
  { unfold removeTomato. apply HistoryProperties.filter_all.
    apply Forall_forall. intros t Ht.
    rewrite Forall_forall in Hfresh. rewrite (Hfresh t Ht). reflexivity. }
  split; [|exact Hsame].
  unfold removeTomato in *. rewrite filter_app, Hsame. cbn [filter].
  rewrite Hid. cbn. apply app_nil_r.
Qed.

Lemma removeTomato_undoes_throw_witness :
  removeTomato 7 ([3; 5] ++ [7])%float = [3; 5]%float /\
  removeTomato 7 [3; 5]%float = [3; 5]%float.
Proof.
  apply (removeTomato_undoes_throw 7 [3; 5]%float eq_refl).
  repeat constructor.
Defined.

End LoopProperties.

(** ** The active and the next line *)

Module TimelineProperties.

Import KaraokeScreen Vocabulary.

Lemma findIndex_from_split {A : Type} (p : A -> bool) (pre : list A) x post :
  forall i,
    Forall (fun y => p y = false) pre -> p x = true ->
    Js.findIndex_from p (pre ++ x :: post) i = i + Js.length pre.
Proof.
  unfold Js.length.
  induction pre as [|y pre IH]; intros i Hpre Hx; cbn.
  - rewrite Hx. lia.
  - inversion Hpre as [|? ? Hy Hrest]; subst. rewrite Hy.
    rewrite (IH (i + 1) Hrest Hx). lia.
Qed.

Lemma findIndex_from_inv {A : Type} (p : A -> bool) (xs : list A) :
  forall i,
    0 <= i -> Js.findIndex_from p xs i <> -1 ->
    exists pre x post,
      xs = pre ++ x :: post /\ Forall (fun y => p y = false) pre /\
      p x = true.
Proof.
  induction xs as [|y xs IH]; intros i Hi H; cbn in H.
  - contradiction.
  - destruct (p y) eqn:E.
    + exists [], y, xs. repeat split; [constructor | exact E].
    + destruct (IH (i + 1) ltac:(lia) H) as (pre & x & post & -> & Hpre & Hx).
      exists (y :: pre), x, post. repeat split; [constructor; assumption | exact Hx].
Qed.

Lemma get_middle {A : Type} (pre : list A) x post :
  Js.get (pre ++ x :: post) (Js.length pre) = Some x.
Proof.
  unfold Js.get, Js.length.
  replace (Z.of_nat (List.length pre) <? 0) with false
    by (symmetry; apply Z.ltb_ge; lia).
  rewrite Nat2Z.id, nth_error_app2, Nat.sub_diag by lia. reflexivity.
Qed.

Lemma get_after {A : Type} (pre : list A) x post :
  Js.get (pre ++ x :: post) (Js.length pre + 1) = hd_error post.
Proof.
  unfold Js.get, Js.length.
  replace (Z.of_nat (List.length pre) + 1 <? 0) with false
    by (symmetry; apply Z.ltb_ge; lia).
  replace (Z.to_nat (Z.of_nat (List.length pre) + 1))
    with (S (List.length pre)) by lia.
  rewrite nth_error_app2 by lia.
  replace (S (List.length pre) - List.length pre)%nat with 1%nat by lia.
  destruct post; reflexivity.
Qed.

(** X9.  The active line is the first line whose interval, moved by the
    offset, contains the current time: where intervals overlap the
    earlier line wins, and a line is reported only if it contains the
    time. *)
Theorem activeLine_is_first_line_containing_time
  (lyrics : list LyricLine) (currentTime lyricsOffset : float)
  (line : LyricLine) :
  activeLine lyrics currentTime lyricsOffset = Some line <->
  exists pre post,
    lyrics = pre ++ line :: post /\
    Forall (fun l => isActiveLine currentTime lyricsOffset l = false) pre /\
    isActiveLine currentTime lyricsOffset line = true.
Proof.
  unfold activeLine, activeLineIndex, Js.findIndex. split.
  - destruct (Js.findIndex_from _ lyrics 0 =? -1) eqn:E; cbn [negb];
      [discriminate|].
    apply Z.eqb_neq in E.
    destruct (findIndex_from_inv _ lyrics 0 ltac:(lia) E)
      as (pre & x & post & -> & Hpre & Hx).
    rewrite (findIndex_from_split _ pre x post 0 Hpre Hx), Z.add_0_l, get_middle.
    intros H; injection H as <-. exists pre, post. repeat split; assumption.
  - intros (pre & post & -> & Hpre & Hx).
    rewrite (findIndex_from_split _ pre line post 0 Hpre Hx), Z.add_0_l.
    replace (Js.length pre =? -1) with false
      by (symmetry; apply Z.eqb_neq; unfold Js.length; lia).
    apply get_middle.
Qed.

(** X10.  While a line is active, the line shown as next is the one that
    follows it in the sequence, and there is none after the last line. *)
Theorem futureLine_follows_active_line
  (pre post : list LyricLine) (line : LyricLine)
  (currentTime lyricsOffset : float) :
  Forall (fun l => isActiveLine currentTime lyricsOffset l = false) pre ->
  isActiveLine currentTime lyricsOffset line = true ->
  futureLine (pre ++ line :: post) currentTime lyricsOffset = hd_error post.
Proof.
  intros Hpre Hx. unfold futureLine, activeLineIndex, Js.findIndex.
  rewrite (findIndex_from_split _ pre line post 0 Hpre Hx), Z.add_0_l.
  destruct post as [|next post].
  - replace (Js.length pre <? Js.length (pre ++ [line]) - 1) with false;
      [reflexivity|].
    symmetry. apply Z.ltb_ge. unfold Js.length. rewrite length_app. cbn. lia.
  - replace (Js.length pre <? Js.length (pre ++ line :: next :: post) - 1)
      with true; [apply get_after|].
    symmetry. apply Z.ltb_lt. unfold Js.length. rewrite length_app. cbn. lia.
Qed.

Lemma futureLine_follows_active_line_witness :
  futureLine ([lineA] ++ lineB :: []) 7 0 = None /\
  futureLine ([] ++ lineA :: [lineB]) 3 0 = Some lineB.
Proof.
  split.
  - apply (futureLine_follows_active_line [lineA] [] lineB 7 0);
      repeat constructor.
  - apply (futureLine_follows_active_line [] [lineB] lineA 3 0);
      repeat constructor.
Defined.

End TimelineProperties.

(** ** The score screen *)

Module ScoreScreenProperties.

Import Vocabulary.

(** X11.  Whatever the final score, the score screen shows between one
    and five stars (one below 3000 points, five from 12000 on), and the
    message looked up for that number of stars always exists. *)
Theorem ScoreScreen_stars_and_message (score : Z) :
  1 <= ScoreScreen.stars score <= 5 /\
  (ScoreScreen.stars score = 1 <-> score < 3000) /\
  (ScoreScreen.stars score = 5 <-> 12000 <= score) /\
  exists m, ScoreScreen.message score = Some m /\ In m ScoreScreen.messages.
Proof.
  unfold ScoreScreen.message, ScoreScreen.stars.
  pose proof (Z.div_mod score 3000 ltac:(lia)) as Hdm.
  pose proof (Z.mod_pos_bound score 3000 ltac:(lia)) as Hb.
  set (q := score / 3000) in *.
  repeat split; try lia.
  assert (Hcases : Z.max 1 (Z.min 5 (q + 1)) - 1 = 0
                   \/ Z.max 1 (Z.min 5 (q + 1)) - 1 = 1
                   \/ Z.max 1 (Z.min 5 (q + 1)) - 1 = 2
                   \/ Z.max 1 (Z.min 5 (q + 1)) - 1 = 3
                   \/ Z.max 1 (Z.min 5 (q + 1)) - 1 = 4) by lia.
  destruct Hcases as [-> | [-> | [-> | [-> | ->]]]];
    eexists; (split; [reflexivity | cbn; tauto]).
Qed.

(** X12.  The score screen always shows one star more than the karaoke
    screen had lit for the same score, up to five. *)
Theorem ScoreScreen_shows_one_more_star (score : Z) :
  ScoreScreen.stars score = Z.min 5 (KaraokeScreen.litStars score + 1) /\
  Js.length (filter (fun lit => lit) (ScoreScreen.starRow score))
  = ScoreScreen.stars score.
Proof.
  split.
  - rewrite StarRating.litStars_clamps_stars.
    unfold ScoreScreen.stars, KaraokeScreen.stars, clamp. lia.
  - unfold ScoreScreen.starRow, Js.length.
    assert (H : 1 <= ScoreScreen.stars score <= 5)
      by (unfold ScoreScreen.stars; lia).
    revert H. generalize (ScoreScreen.stars score) as q. intros q H.
    cbn [map filter].
    destruct (Z.ltb_spec 0 q), (Z.ltb_spec 1 q), (Z.ltb_spec 2 q),
      (Z.ltb_spec 3 q), (Z.ltb_spec 4 q); cbn [filter List.length]; lia.
Qed.

End ScoreScreenProperties.

(** ** More on the order of binary64 numbers *)

Module FloatFacts.

Import FloatOrder.

Lemma SFltb_leb_trans a b x :
  SFltb a b = true -> SFleb b x = true -> SFltb a x = true.
Proof. by_cases3 a b x. Qed.

Lemma SFnot_ltb_leb a b :
  SFltb a b = false -> SFeqb a a = true -> SFeqb b b = true ->
  SFleb b a = true.
Proof. by_cases2 a b. Qed.

Lemma SFltb_leb a b : SFltb a b = true -> SFleb a b = true.
Proof. by_cases2 a b. Qed.

Lemma ltb_leb_trans a b x :
  (a <? b)%float = true -> (b <=? x)%float = true -> (a <? x)%float = true.
Proof.
  rewrite !FloatAxioms.ltb_spec, FloatAxioms.leb_spec. apply SFltb_leb_trans.
Qed.

(** Two numbers (not NaN) are comparable. *)
Lemma not_ltb_leb a b :
  (a <? b)%float = false -> (a =? a)%float = true -> (b =? b)%float = true ->
  (b <=? a)%float = true.
Proof.
  rewrite FloatAxioms.ltb_spec, !FloatAxioms.eqb_spec, FloatAxioms.leb_spec.
  apply SFnot_ltb_leb.
Qed.

Lemma ltb_leb a b : (a <? b)%float = true -> (a <=? b)%float = true.
Proof. rewrite FloatAxioms.ltb_spec, FloatAxioms.leb_spec. apply SFltb_leb. Qed.

(** Zero divided by anything is a zero or NaN, never positive. *)
Lemma zero_div_not_positive h : (0 <? 0 / h)%float = false.
Proof.
  rewrite FloatAxioms.ltb_spec, FloatAxioms.div_spec.
  change (Prim2SF 0) with (S754_zero false).
  destruct (Prim2SF h) as [[]|[]| |[] ? ?]; reflexivity.
Qed.

End FloatFacts.

(** ** More on the pitch estimator *)

Module PitchProperties.

Import PitchDetection Vocabulary.

(** X13.  A buffer of at most 160 samples has no lag to try (the first
    lag, 80, must stay below half the length): the estimator reports no
    pitch, whatever the samples and the sample rate. *)
Theorem short_buffer_has_no_pitch (buffer : list float) (sampleRate : float) :
  Js.length buffer <= 160 ->
  candidateOffsets buffer = [] /\
  findFundamentalFreq buffer sampleRate = 0%float.
Proof.
  intros Hlen.
  assert (Hnone : candidateOffsets buffer = []).
  { unfold candidateOffsets, range, halfCount.
    replace (Z.to_nat ((Js.length buffer + 1) / 2 - 80)) with 0%nat;
      [reflexivity|].
    pose proof (Z.div_mod (Js.length buffer + 1) 2 ltac:(lia)).
    pose proof (Z.mod_pos_bound (Js.length buffer + 1) 2 ltac:(lia)).
    lia. }
  split; [exact Hnone|].
  unfold findFundamentalFreq, scan. rewrite Hnone. reflexivity.
Qed.

Lemma short_buffer_has_no_pitch_witness :
  candidateOffsets (squareWave 40 160) = [] /\
  findFundamentalFreq (squareWave 40 160) 44100 = 0%float.
Proof.
  apply (short_buffer_has_no_pitch (squareWave 40 160) 44100).
  vm_compute. discriminate.
Defined.

Lemma sample_of_silence buffer i :
  Forall (fun x => x = 0%float) buffer ->
  0 <= i < Js.length buffer ->
  sample buffer i = 0%float.
Proof.
  intros Hz Hi. unfold sample, Js.get, Js.length in *.
  replace (i <? 0) with false by (symmetry; apply Z.ltb_ge; lia).
  destruct (nth_error buffer (Z.to_nat i)) as [x|] eqn:E.
  - apply nth_error_In in E. rewrite Forall_forall in Hz. apply Hz, E.
  - apply nth_error_None in E. lia.
Qed.

Lemma sum_of_zero_products buffer offset (indices : list Z) :
  Forall (fun i => sample buffer i = 0%float
                   /\ sample buffer (i + offset) = 0%float) indices ->
  fold_left
    (fun correlation i =>
       (correlation + sample buffer i * sample buffer (i + offset))%float)
    indices 0%float = 0%float.
Proof.
  induction 1 as [|i indices [Hi Hio] _ IH]; cbn [fold_left]; [reflexivity|].
  rewrite Hi, Hio. exact IH.
Qed.

Lemma correlation_of_silence buffer offset :
  Forall (fun x => x = 0%float) buffer ->
  In offset (candidateOffsets buffer) ->
  correlation buffer offset = (0 / halfLength buffer)%float.
Proof.
  intros Hz Ho. unfold correlation, sumProducts.
  rewrite sum_of_zero_products; [reflexivity|].
  apply PitchEstimator.In_candidateOffsets in Ho.
  apply Forall_forall. intros i Hi. apply PitchEstimator.In_summed in Hi.
  split; apply sample_of_silence; try assumption; lia.
Qed.

Lemma fold_visit_nothing_positive buffer offsets :
  Forall (fun offset => (0 <? correlation buffer offset)%float = false) offsets ->
  fold_left (visit buffer) offsets (0%float, -1) = (0%float, -1).
Proof.
  induction 1 as [|offset offsets Ho _ IH]; cbn [fold_left]; [reflexivity|].
  unfold visit at 2, Js.gt. cbn [fst]. rewrite Ho. exact IH.
Qed.

(** X14.  Silence has no pitch: on a buffer of zeros, of any length and
    at any sample rate, no lag has a positive correlation and the
    estimator reports 0. *)
Theorem silence_has_no_pitch (buffer : list float) (sampleRate : float) :
  Forall (fun x => x = 0%float) buffer ->
  scan buffer = (0%float, -1) /\
  findFundamentalFreq buffer sampleRate = 0%float.
Proof.
  intros Hz.
  assert (Hscan : scan buffer = (0%float, -1)).
  { unfold scan. apply fold_visit_nothing_positive.
    apply Forall_forall. intros offset Ho.
    rewrite (correlation_of_silence buffer offset Hz Ho).
    apply FloatFacts.zero_div_not_positive. }
  split; [exact Hscan|].
  unfold findFundamentalFreq. rewrite Hscan. reflexivity.
Qed.

Lemma silence_has_no_pitch_witness :
  scan (repeat 0%float 1024) = (0%float, -1) /\
  findFundamentalFreq (repeat 0%float 1024) 44100 = 0%float.
Proof.
  apply (silence_has_no_pitch (repeat 0%float 1024) 44100).
  apply ScoringEngine.Forall_repeat. reflexivity.
Defined.

Lemma visit_firstBest buffer seen best offset :
  bestSoFar buffer seen best ->
  firstBest buffer seen best ->
  (forall L, In L seen -> L < offset) -> -1 < offset ->
  firstBest buffer (seen ++ [offset]) (visit buffer best offset).
Proof.
  intros [Hmax Hbest] Hfirst Hlt Hpos. unfold visit, Js.gt.
  destruct (fst best <? correlation buffer offset)%float eqn:E;
    intros L HL HLlt; cbn [fst snd] in *.
  - apply in_app_or in HL as [HL | [<- | []]]; [|lia].
    destruct (correlation buffer offset <=? correlation buffer L)%float eqn:E';
      [|reflexivity].
    pose proof (Hmax L HL) as Hm.
    rewrite (FloatFacts.ltb_leb_trans _ _ _ E E') in Hm. discriminate.
  - apply in_app_or in HL as [HL | [<- | []]]; [apply Hfirst; assumption|].
    destruct Hbest as [-> | (Hin & _)]; cbn [snd] in *; [lia|].
    specialize (Hlt _ Hin). lia.
Qed.

Lemma fold_visit_firstBest buffer offsets :
  forall seen best,
    bestSoFar buffer seen best ->
    firstBest buffer seen best ->
    (forall a b, In a seen -> In b offsets -> a < b) ->
    StronglySorted Z.lt offsets ->
    (forall b, In b offsets -> -1 < b) ->
    firstBest buffer (seen ++ offsets) (fold_left (visit buffer) offsets best).
Proof.
  induction offsets as [|offset offsets IH];
    intros seen best Hbest Hfirst Hlt Hsorted Hpos; cbn [fold_left].
  - rewrite app_nil_r. exact Hfirst.
  - replace (seen ++ offset :: offsets) with ((seen ++ [offset]) ++ offsets)
      by (rewrite <- app_assoc; reflexivity).
    inversion Hsorted as [|? ? Hs Hall]; subst.
    apply IH.
    + apply PitchEstimator.visit_bestSoFar, Hbest.
    + apply visit_firstBest; try assumption.
      * intros L HL. apply Hlt; [exact HL | left; reflexivity].
      * apply Hpos. left. reflexivity.
    + intros a b Ha Hb. apply in_app_or in Ha as [Ha | [<- | []]].
      * apply Hlt; [exact Ha | right; exact Hb].
      * rewrite Forall_forall in Hall. apply Hall, Hb.
    + exact Hs.
    + intros b Hb. apply Hpos. right. exact Hb.
Qed.

Lemma range_sorted lo (count start : nat) :
  StronglySorted Z.lt (map (fun k => lo + Z.of_nat k) (seq start count)).
Proof.
  revert start. induction count as [|count IH]; intros start; cbn.
  - constructor.
  - constructor; [apply IH|].
    apply Forall_forall. intros x Hx.
    apply in_map_iff in Hx as (k & <- & Hk). apply in_seq in Hk. lia.
Qed.

(** X15.  Among lags of equal correlation the smallest wins: no lag
    smaller than the one selected has a correlation that reaches the best
    one.  (With the maximality proved for C3: smaller lags are strictly
    worse, larger lags are no better.) *)
Theorem smallest_best_lag_is_selected (buffer : list float) (L : Z) :
  In L (candidateOffsets buffer) ->
  L < snd (scan buffer) ->
  (fst (scan buffer) <=? correlation buffer L)%float = false.
Proof.
  intros HL Hlt.
  apply (fold_visit_firstBest buffer (candidateOffsets buffer) []
           (0%float, -1)); try assumption.
  - split; [intros ? []|]. left. reflexivity.
  - intros ? [].
  - intros ? ? [].
  - apply range_sorted.
  - intros b Hb. apply PitchEstimator.In_candidateOffsets in Hb. lia.
Qed.

(** On 400 samples of the square wave of period 100 the lag selected is
    100; lag 80, before it, does not reach its correlation. *)
Lemma smallest_best_lag_is_selected_witness :
  (fst (scan (squareWave 100 400)) <=? correlation (squareWave 100 400) 80)%float
  = false.
Proof.
  apply (smallest_best_lag_is_selected (squareWave 100 400) 80).
  - apply PitchEstimator.In_candidateOffsets. vm_compute.
    split; [intros H; discriminate H | reflexivity].
  - vm_compute. reflexivity.
Defined.

End PitchProperties.

(** ** The pitch scale *)

Module PitchScale.

Import PitchDetection Vocabulary.

(** [Math.max(0, Math.min(100, q))] is NaN on NaN and within 0..100 on
    every number. *)
Lemma clamped_to_scale (q : float) :
  let p := Js.Math_max2 0 (Js.Math_min2 100 q) in
  (is_nan q = true /\ is_nan p = true) \/
  (is_nan q = false /\ within_0_100 p).
Proof.
  cbv zeta. unfold is_nan at 1 3.
  destruct (q =? q)%float eqn:Hq; cbn [negb]; [right | left];
    (split; [reflexivity|]).
  - assert (Hnan : is_nan q = false) by (unfold is_nan; rewrite Hq; reflexivity).
    assert (Hmax : forall m, (m =? m)%float = true -> (m <=? 100)%float = true ->
                             within_0_100 (Js.Math_max2 0 m)).
    { intros m Hm Hle. unfold Js.Math_max2.
      replace (is_nan 0 || is_nan m) with false
        by (unfold is_nan; rewrite Hm; reflexivity).
      destruct (0 <? m)%float eqn:E0.
      - split; [apply FloatFacts.ltb_leb, E0 | exact Hle].
      - destruct (m <? 0)%float; [split; reflexivity|].
        replace (get_sign 0) with false by reflexivity. split; reflexivity. }
    unfold Js.Math_min2. rewrite Hnan.
    replace (is_nan 100 || false) with false by reflexivity.
    destruct (100 <? q)%float eqn:E1.
    + apply Hmax; reflexivity.
    + destruct (q <? 100)%float eqn:E2.
      * apply Hmax; [exact Hq | apply FloatFacts.ltb_leb, E2].
      * replace (get_sign 100) with false by reflexivity.
        apply Hmax; [exact Hq|].
        apply (FloatFacts.not_ltb_leb 100 q E1 eq_refl Hq).
  - assert (Hnan : is_nan q = true) by (unfold is_nan; rewrite Hq; reflexivity).
    unfold Js.Math_min2. rewrite Hnan.
    replace (is_nan 100 || true) with true by reflexivity.
    reflexivity.
Qed.

(** X16.  The pitch the hook hands to the game is always on the 0..100
    scale: it is 50 on a quiet frame (loudness not above 0.01), and
    otherwise the frequency mapped by (f - 100) / 4 and cut off at 0 and
    100; it can only be NaN when that quotient is. *)
Theorem userPitch_is_on_the_scale
  (dataArray : list float) (volumeArray : list byte) (sampleRate : float) :
  let p := snd (processAudio dataArray volumeArray sampleRate) in
  let q := ((findFundamentalFreq dataArray sampleRate - 100) / 4)%float in
  (Js.gt (rms volumeArray) 0.01 = false /\ p = 50%float) \/
  (Js.gt (rms volumeArray) 0.01 = true /\ is_nan q = false /\ within_0_100 p) \/
  (Js.gt (rms volumeArray) 0.01 = true /\ is_nan q = true /\ is_nan p = true).
Proof.
  cbv zeta. unfold processAudio. cbn [snd].
  destruct (Js.gt (rms volumeArray) 0.01); [right | left; split; reflexivity].
  unfold pitchValue.
  destruct (clamped_to_scale
              ((findFundamentalFreq dataArray sampleRate - 100) / 4)%float)
    as [[Hq Hp] | [Hq Hp]]; [right | left];
    (split; [reflexivity | split; assumption]).
Qed.

End PitchScale.

(** ** LRC parsing *)

Module LrcProperties.

Import App Vocabulary.

Open Scope string_scope.
Open Scope Z_scope.

(** *** What the timestamp pattern accepts *)

Lemma bind_inv {A B : Type} (m : Matcher A) (k : A -> Matcher B) s r :
  bind m k s = Some r -> exists a s', m s = Some (a, s') /\ k a s' = Some r.
Proof.
  unfold bind. destruct (m s) as [[a s']|]; [|discriminate].
  intros H. exists a, s'. split; [reflexivity | exact H].
Qed.

Lemma lit_inv c s u r : lit c s = Some (u, r) -> s = String c r.
Proof.
  unfold lit. destruct s as [|c' s]; [discriminate|].
  destruct (Ascii.eqb c' c) eqn:E; [|discriminate].
  apply Ascii.eqb_eq in E. intros H; injection H as _ <-. congruence.
Qed.

Lemma digit_inv s c r :
  digit s = Some (c, r) -> s = String c r /\ isDigit c = true.
Proof.
  unfold digit. destruct s as [|c' s]; [discriminate|].
  destruct (isDigit c') eqn:E; [|discriminate].
  intros H; injection H as <- <-. split; [reflexivity | exact E].
Qed.

Lemma lit_ok c r : lit c (String c r) = Some (tt, r).
Proof. unfold lit. rewrite Ascii.eqb_refl. reflexivity. Qed.

Lemma digit_ok c r : isDigit c = true -> digit (String c r) = Some (c, r).
Proof. intros H. unfold digit. rewrite H. reflexivity. Qed.

Lemma digits2_inv s d r :
  digits2 s = Some (d, r) ->
  exists a b, s = String a (String b r) /\ d = String a (String b "")
              /\ isDigit a = true /\ isDigit b = true.
Proof.
  unfold digits2. intros H.
  apply bind_inv in H as (a & s1 & Ha & H). apply digit_inv in Ha as [-> Ha].
  apply bind_inv in H as (b & s2 & Hb & H). apply digit_inv in Hb as [-> Hb].
  injection H as <- <-. exists a, b. repeat split; assumption.
Qed.

Lemma digits2_ok a b r :
  isDigit a = true -> isDigit b = true ->
  digits2 (String a (String b r)) = Some (String a (String b ""), r).
Proof.
  intros Ha Hb. unfold digits2, bind. rewrite (digit_ok a _ Ha), (digit_ok b _ Hb).
  reflexivity.
Qed.

Lemma digits2or3_bracket_inv s ms r :
  digits2or3_bracket s = Some (ms, r) ->
  exists a b, isDigit a = true /\ isDigit b = true /\
    ((s = String a (String b (String "]" r)) /\ ms = String a (String b ""))
     \/ exists c, isDigit c = true /\
          s = String a (String b (String c (String "]" r))) /\
          ms = String a (String b (String c ""))).
Proof.
  unfold digits2or3_bracket. intros H.
  apply bind_inv in H as (ab & s1 & Hab & H).
  apply digits2_inv in Hab as (a & b & -> & -> & Ha & Hb).
  exists a, b. split; [exact Ha|]. split; [exact Hb|].
  destruct (bind digit _ s1) as [[ms' r']|] eqn:E3.
  - injection H as <- <-. right.
    apply bind_inv in E3 as (c & s2 & Hc & E3). apply digit_inv in Hc as [-> Hc].
    apply bind_inv in E3 as (u & s3 & Hl & E3). apply lit_inv in Hl as ->.
    injection E3 as <- <-. exists c. repeat split; assumption.
  - left. apply bind_inv in H as (u & s2 & Hl & H). apply lit_inv in Hl as ->.
    injection H as <- <-. split; reflexivity.
Qed.

Lemma digits2or3_bracket_ok2 a b r :
  isDigit a = true -> isDigit b = true ->
  digits2or3_bracket (String a (String b (String "]" r)))
  = Some (String a (String b ""), r).
Proof.
  intros Ha Hb. unfold digits2or3_bracket, bind at 1.
  rewrite (digits2_ok a b _ Ha Hb). reflexivity.
Qed.

Lemma digits2or3_bracket_ok3 a b c r :
  isDigit a = true -> isDigit b = true -> isDigit c = true ->
  digits2or3_bracket (String a (String b (String c (String "]" r))))
  = Some (String a (String b (String c "")), r).
Proof.
  intros Ha Hb Hc. unfold digits2or3_bracket, bind at 1.
  rewrite (digits2_ok a b _ Ha Hb). unfold bind.
  rewrite (digit_ok c _ Hc), lit_ok. reflexivity.
Qed.

Lemma two_digits s :
  allDigits s -> String.length s = 2%nat ->
  exists a b, s = String a (String b "") /\ isDigit a = true /\ isDigit b = true.
Proof.
  intros Hd Hl. destruct s as [|a [|b [|]]]; try discriminate.
  inversion Hd as [|? ? Ha Hd']; subst. inversion Hd' as [|? ? Hb _]; subst.
  exists a, b. repeat split; assumption.
Qed.

Lemma timestamp_shape (line min sec ms rest : string) :
  timestamp line = Some ((min, sec, ms), rest) <->
  line = "[" ++ min ++ ":" ++ sec ++ "." ++ ms ++ "]" ++ rest /\
  allDigits min /\ String.length min = 2%nat /\
  allDigits sec /\ String.length sec = 2%nat /\
  allDigits ms /\ (String.length ms = 2%nat \/ String.length ms = 3%nat).
Proof.
  split.
  - unfold timestamp. intros H.
    apply bind_inv in H as (u1 & s1 & H1 & H). apply lit_inv in H1 as ->.
    apply bind_inv in H as (m & s2 & Hm & H).
    apply digits2_inv in Hm as (m1 & m2 & -> & -> & Hm1 & Hm2).
    apply bind_inv in H as (u2 & s3 & H2 & H). apply lit_inv in H2 as ->.
    apply bind_inv in H as (s & s4 & Hs & H).
    apply digits2_inv in Hs as (c1 & c2 & -> & -> & Hc1 & Hc2).
    apply bind_inv in H as (u3 & s5 & H3 & H). apply lit_inv in H3 as ->.
    apply bind_inv in H as (f & s6 & Hf & H).
    injection H as <- <- <- <-.
    apply digits2or3_bracket_inv in Hf
      as (f1 & f2 & Hf1 & Hf2 & [[-> ->] | (f3 & Hf3 & -> & ->)]);
      unfold allDigits; cbn; repeat split; auto.
  - intros (-> & Hmin & Lmin & Hsec & Lsec & Hms & Lms).
    destruct (two_digits min Hmin Lmin) as (m1 & m2 & -> & Hm1 & Hm2).
    destruct (two_digits sec Hsec Lsec) as (c1 & c2 & -> & Hc1 & Hc2).
    unfold timestamp. cbn [append]. unfold bind at 1. rewrite lit_ok.
    unfold bind at 1. rewrite (digits2_ok m1 m2 _ Hm1 Hm2).
    unfold bind at 1. rewrite lit_ok.
    unfold bind at 1. rewrite (digits2_ok c1 c2 _ Hc1 Hc2).
    unfold bind at 1. rewrite lit_ok.
    unfold bind at 1.
    destruct Lms as [Lms | Lms].
    + destruct (two_digits ms Hms Lms) as (f1 & f2 & -> & Hf1 & Hf2).
      cbn [append]. rewrite (digits2or3_bracket_ok2 f1 f2 _ Hf1 Hf2).
      reflexivity.
    + destruct ms as [|f1 [|f2 [|f3 [|]]]]; try discriminate.
      inversion Hms as [|? ? Hf1 Hms']; subst.
      inversion Hms' as [|? ? Hf2 Hms'']; subst.
      inversion Hms'' as [|? ? Hf3 _]; subst.
      cbn [append]. rewrite (digits2or3_bracket_ok3 f1 f2 f3 _ Hf1 Hf2 Hf3).
      reflexivity.
Qed.

(** X19.  The timestamp pattern accepts exactly the lines that begin with
    [[mm:ss.xx]] or [[mm:ss.xxx]], all digits, and then its groups are
    those digit strings and the rest of the line is what follows the
    bracket. *)
Theorem timestamp_accepts_exactly (line min sec ms rest : string) :
  timestamp line = Some ((min, sec, ms), rest) <->
  line = "[" ++ min ++ ":" ++ sec ++ "." ++ ms ++ "]" ++ rest /\
  allDigits min /\ String.length min = 2%nat /\
  allDigits sec /\ String.length sec = 2%nat /\
  allDigits ms /\ (String.length ms = 2%nat \/ String.length ms = 3%nat).
Proof. apply timestamp_shape. Qed.

(** *** What [parseLRC] makes of the timestamped lines *)

Lemma fixLastLine_snoc init lastLine :
  fixLastLine (init ++ [lastLine])
  = (init ++ [ if (endTime lastLine =? SONG_DURATION_S)%float
               then {| text := text lastLine; startTime := startTime lastLine;
                       endTime := (startTime lastLine + 5)%float |}
               else lastLine ])%list.
Proof.
  unfold fixLastLine. rewrite rev_app_distr. cbn [rev app].
  rewrite rev_involutive.
  destruct (endTime lastLine =? SONG_DURATION_S)%float; reflexivity.
Qed.

Lemma fixLastLine_fields timedLyrics :
  map text (fixLastLine timedLyrics) = map text timedLyrics /\
  map startTime (fixLastLine timedLyrics) = map startTime timedLyrics.
Proof.
  destruct timedLyrics as [|l ls] using rev_ind; [split; reflexivity|].
  rewrite fixLastLine_snoc, !map_app. cbn [map].
  destruct (endTime l =? SONG_DURATION_S)%float; split; reflexivity.
Qed.

Lemma parseLines_fields lines :
  Forall (fun line => hasTimestamp line = true) lines ->
  map text (parseLines lines) = map lineText lines /\
  map startTime (parseLines lines) = map lineStart lines.
Proof.
  induction 1 as [|line lines Hl _ [IHt IHs]]; cbn [parseLines map];
    [split; reflexivity|].
  unfold lineText, lineStart.
  destruct (SessionStart.matchLine_of_timestamp line Hl)
    as ([[[min sec] ms] txt] & ->).
  cbn [map text startTime]. rewrite IHt, IHs. split; reflexivity.
Qed.

Lemma kept_lines_have_timestamps lrcText :
  Forall (fun line => hasTimestamp line = true)
         (filter hasTimestamp (split lrcText)).
Proof. apply Forall_forall. intros l Hl. apply filter_In in Hl. apply Hl. Qed.

(** X17.  [parseLRC] turns each line that starts with a timestamp into
    one lyric line, in order, with the text and the start time of that
    line alone; the other lines are dropped one by one and change neither
    the text nor the start time of a line that is kept. *)
Theorem parseLRC_keeps_each_timestamped_line (lrcText : string) :
  let kept := filter hasTimestamp (split lrcText) in
  map text (parseLRC lrcText) = map lineText kept /\
  map startTime (parseLRC lrcText) = map lineStart kept.
Proof.
  cbv zeta. unfold parseLRC, Js.length.
  pose proof (kept_lines_have_timestamps lrcText) as Hkept.
  destruct (filter hasTimestamp (split lrcText)) as [|line lines] eqn:E.
  - split; reflexivity.
  - replace (Z.of_nat (List.length (line :: lines)) =? 0) with false
      by (symmetry; apply Z.eqb_neq; cbn [List.length]; lia).
    destruct (fixLastLine_fields (parseLines (line :: lines))) as [-> ->].
    apply parseLines_fields, Hkept.
Qed.

Lemma parseLines_head line lines :
  hasTimestamp line = true ->
  exists l, parseLines (line :: lines) = l :: parseLines lines
            /\ startTime l = lineStart line.
Proof.
  intros Hl. cbn [parseLines]. unfold lineStart.
  destruct (SessionStart.matchLine_of_timestamp line Hl)
    as ([[[min sec] ms] txt] & ->).
  eexists. split; reflexivity.
Qed.

Lemma parseLines_chainedTo lines :
  Forall (fun line => hasTimestamp line = true) lines ->
  chainedTo SONG_DURATION_S (parseLines lines).
Proof.
  induction 1 as [|line lines Hl Hrest IH]; [exact I|].
  cbn [parseLines].
  destruct (SessionStart.matchLine_of_timestamp line Hl)
    as ([[[min sec] ms] txt] & ->).
  cbn [chainedTo]. split; [|exact IH].
  destruct Hrest as [|next lines Hn Hrest']; [reflexivity|].
  destruct (parseLines_head next lines Hn) as (l & -> & Hstart).
  cbn [endTime]. rewrite Hstart. unfold lineStart, matchLine.
  destruct (timestamp next) as [[[[nextMin nextSec] nextMs] r]|] eqn:E.
  - reflexivity.
  - unfold hasTimestamp in Hn. rewrite E in Hn. discriminate.
Qed.

Lemma chainedTo_snoc last init lastLine :
  chainedTo last (init ++ [lastLine]) ->
  endTime lastLine = last /\
  forall lastLine',
    startTime lastLine' = startTime lastLine ->
    endTime lastLine' = (startTime lastLine' + 5)%float ->
    chained (init ++ [lastLine']).
Proof.
  induction init as [|x init IH]; cbn [app chainedTo chained].
  - intros [H _]. split; [exact H|]. intros l' _ He. split; [exact He | exact I].
  - intros [Hx Hrest]. destruct (IH Hrest) as [Hlast Hchain].
    split; [exact Hlast|]. intros l' Hs He. split; [|apply Hchain; assumption].
    destruct init as [|y init]; cbn [app] in *; congruence.
Qed.

(** X18.  The timeline that [parseLRC] builds has no gaps: every line
    ends exactly when the next one starts, and the last line ends five
    seconds after its start. *)
Theorem parseLRC_timeline_is_gapless (lrcText : string) :
  chained (parseLRC lrcText).
Proof.
  unfold parseLRC, Js.length.
  pose proof (kept_lines_have_timestamps lrcText) as Hkept.
  destruct (filter hasTimestamp (split lrcText)) as [|line lines] eqn:E;
    [exact I|].
  replace (Z.of_nat (List.length (line :: lines)) =? 0) with false
    by (symmetry; apply Z.eqb_neq; cbn [List.length]; lia).
  pose proof (parseLines_chainedTo _ Hkept) as Hc.
  destruct (parseLines (line :: lines)) as [|l ls] using rev_ind; [exact I|].
  rewrite fixLastLine_snoc.
  destruct (chainedTo_snoc _ _ _ Hc) as [Hlast Hchain].
  rewrite Hlast. replace (SONG_DURATION_S =? SONG_DURATION_S)%float with true
    by reflexivity.
  apply Hchain; reflexivity.
Qed.

(** The timeline of the sample text, with its two stray lines. *)
Example parseLRC_sample :
  map text (parseLRC sampleLRC)
  = ["When I walk on by"; "girls be looking"; "yeah"] /\
  map (fun l => (startTime l, endTime l)) (parseLRC sampleLRC)
  = [ ((0 * 60 + 10 + 540 / 1000)%float, (0 * 60 + 13 + 200 / 1000)%float);
      ((0 * 60 + 13 + 200 / 1000)%float, (1 * 60 + 2 + 345 / 1000)%float);
      ((1 * 60 + 2 + 345 / 1000)%float, (1 * 60 + 2 + 345 / 1000 + 5)%float) ].
Proof. split; vm_compute; reflexivity. Qed.

(** *** Session start and rendering *)

(** X20.  Session start is all or nothing.  Either the karaoke session
    begins, with the parsed, non-empty lyrics, the song, no error and the
    song first in the history; or the application is back on the home
    screen with an error message, and the lyrics, the song and the
    history are what they were. *)
Theorem session_start_is_all_or_nothing
  (details : SongDetails) (fetched : Fetched) (st : State) :
  let st' := handleStartKaraoke details fetched st in
  (appState st' = KARAOKE /\
   (exists lyricsLRC,
      fetched = Resolved lyricsLRC /\ lyrics st' = parseLRC lyricsLRC) /\
   lyrics st' <> [] /\ songDetails st' = Some details /\ error st' = None /\
   hd_error (history st') = Some details)
  \/
  (appState st' = HOME /\ (exists m, error st' = Some m) /\
   lyrics st' = lyrics st /\ songDetails st' = songDetails st /\
   history st' = history st /\ finalScore st' = finalScore st).
Proof.
  cbv zeta. unfold handleStartKaraoke, Js.length.
  destruct fetched as [lrc|message].
  - destruct (parseLRC lrc) as [|l ls] eqn:E; cbn.
    + right. repeat split; eexists; reflexivity.
    + left. repeat split; try discriminate.
      exists lrc. split; [reflexivity | symmetry; exact E].
  - right. cbn. repeat split; eexists; reflexivity.
Qed.


End LrcProperties.

(** ** Lyrics from the fallback provider *)

Module FallbackProperties.

Import App GeminiService Vocabulary.

Open Scope string_scope.

(** *** Strings *)

Lemma append_assoc (a b c : string) : (a ++ b) ++ c = a ++ (b ++ c).
Proof. induction a as [|x a IH]; cbn; [reflexivity | rewrite IH; reflexivity]. Qed.

Lemma every_append p a b : every p (a ++ b) = every p a && every p b.
Proof.
  induction a as [|x a IH]; cbn; [reflexivity|].
  rewrite IH, andb_assoc. reflexivity.
Qed.

Lemma every_trimStart p s : every p s = true -> every p (trimStart s) = true.
Proof.
  induction s as [|c s IH]; cbn; [reflexivity|].
  intros H. apply andb_true_iff in H as [Hc Hs].
  destruct (isSpace c); [apply IH, Hs|]. cbn. rewrite Hc, Hs. reflexivity.
Qed.

Lemma every_trimEnd p s : every p s = true -> every p (trimEnd s) = true.
Proof.
  induction s as [|c s IH]; cbn; [reflexivity|].
  intros H. apply andb_true_iff in H as [Hc Hs]. specialize (IH Hs).
  destruct (trimEnd s) as [|d r].
  - destruct (isSpace c); cbn; [reflexivity|]. rewrite Hc. reflexivity.
  - cbn [every] in *. rewrite Hc. exact IH.
Qed.

Lemma every_trim p s : every p s = true -> every p (trim s) = true.
Proof. intros H. apply every_trimEnd, every_trimStart, H. Qed.

Lemma trimEnd_idempotent s : trimEnd (trimEnd s) = trimEnd s.
Proof.
  induction s as [|c s IH]; cbn; [reflexivity|].
  destruct (trimEnd s) as [|d r] eqn:E.
  - destruct (isSpace c) eqn:Ec; cbn; [reflexivity|]. rewrite Ec. reflexivity.
  - cbn [trimEnd]. cbn [trimEnd] in IH. rewrite IH. reflexivity.
Qed.

Lemma trimStart_head s :
  trimStart s = "" \/
  exists c r, trimStart s = String c r /\ isSpace c = false.
Proof.
  induction s as [|c s IH]; cbn; [left; reflexivity|].
  destruct (isSpace c) eqn:E; [exact IH|].
  right. exists c, s. split; [reflexivity | exact E].
Qed.

Lemma trimEnd_head c r :
  isSpace c = false -> exists r', trimEnd (String c r) = String c r'.
Proof.
  intros Hc. cbn. destruct (trimEnd r); [rewrite Hc|]; eexists; reflexivity.
Qed.

(** Trimming twice is trimming once. *)
Lemma trim_idempotent s : trim (trim s) = trim s.
Proof.
  unfold trim. destruct (trimStart_head s) as [-> | (c & r & -> & Hc)];
    [reflexivity|].
  destruct (trimEnd_head c r Hc) as (r' & E). rewrite E.
  cbn [trimStart]. rewrite Hc, <- E. apply trimEnd_idempotent.
Qed.

Lemma trimEnd_empty s : trimEnd s = "" -> every isSpace s = true.
Proof.
  induction s as [|c s IH]; cbn; [reflexivity|].
  destruct (trimEnd s); [|discriminate].
  destruct (isSpace c); [|discriminate]. intros _. apply IH. reflexivity.
Qed.

Lemma trimStart_spaces s :
  every isSpace (trimStart s) = true -> every isSpace s = true.
Proof.
  induction s as [|c s IH]; cbn; [reflexivity|].
  destruct (isSpace c) eqn:E; cbn; [exact IH|]. rewrite E. discriminate.
Qed.

Lemma trim_of_spaces s : every isSpace s = true -> trim s = "".
Proof.
  unfold trim. induction s as [|c s IH]; cbn; [reflexivity|].
  intros H. apply andb_true_iff in H as [-> Hs]. apply IH, Hs.
Qed.

Lemma trim_empty s : trim s = "" -> every isSpace s = true.
Proof. intros H. apply trimStart_spaces, trimEnd_empty, H. Qed.

Lemma splitNewline_every p s :
  every p s = true ->
  every p (fst (splitNewline s)) = true /\
  Forall (fun piece => every p piece = true) (snd (splitNewline s)).
Proof.
  induction s as [|c s IH]; cbn [splitNewline every fst snd];
    [split; [reflexivity | constructor]|].
  intros H. apply andb_true_iff in H as [Hc Hs].
  destruct (IH Hs) as [Hp Hps].
  destruct (splitNewline s) as [piece pieces]. cbn [fst snd] in *.
  destruct (Ascii.eqb c newline); cbn [fst snd every].
  - split; [reflexivity | constructor; assumption].
  - split; [rewrite Hc, Hp; reflexivity | exact Hps].
Qed.

Lemma split_every p s :
  every p s = true -> Forall (fun piece => every p piece = true) (split s).
Proof.
  intros H. unfold split. destruct (splitNewline_every p s H) as [Hp Hps].
  destruct (splitNewline s). constructor; assumption.
Qed.

(** The pieces of [split] hold no line feed. *)
Lemma splitNewline_no_line_feed s :
  every notLineFeed (fst (splitNewline s)) = true /\
  Forall (fun piece => every notLineFeed piece = true) (snd (splitNewline s)).
Proof.
  induction s as [|c s [Hp Hps]]; cbn [splitNewline every fst snd];
    [split; [reflexivity | constructor]|].
  destruct (splitNewline s) as [piece pieces]. cbn [fst snd] in *.
  destruct (Ascii.eqb c newline) eqn:E; cbn [fst snd every].
  - split; [reflexivity | constructor; assumption].
  - split; [|exact Hps]. unfold notLineFeed at 1. rewrite E, Hp. reflexivity.
Qed.

Lemma split_no_line_feed s :
  Forall (fun piece => every notLineFeed piece = true) (split s).
Proof.
  unfold split. destruct (splitNewline_no_line_feed s) as [Hp Hps].
  destruct (splitNewline s). constructor; assumption.
Qed.

Lemma splitNewline_line a :
  every notLineFeed a = true -> splitNewline a = (a, []).
Proof.
  induction a as [|c a IH]; cbn [splitNewline every]; [reflexivity|].
  intros H. apply andb_true_iff in H as [Hc Ha]. rewrite (IH Ha).
  unfold notLineFeed in Hc. apply negb_true_iff in Hc. rewrite Hc. reflexivity.
Qed.

Lemma splitNewline_append a t :
  every notLineFeed a = true ->
  splitNewline (a ++ String newline t) = (a, split t).
Proof.
  induction a as [|c a IH]; cbn [splitNewline every append].
  - intros _. unfold split. destruct (splitNewline t).
    rewrite Ascii.eqb_refl. reflexivity.
  - intros H. apply andb_true_iff in H as [Hc Ha]. rewrite (IH Ha).
    unfold notLineFeed in Hc. apply negb_true_iff in Hc. rewrite Hc. reflexivity.
Qed.

(** Splitting what [join] put together gives the pieces back. *)
Lemma split_join pieces :
  pieces <> [] ->
  Forall (fun piece => every notLineFeed piece = true) pieces ->
  split (join pieces) = pieces.
Proof.
  induction pieces as [|a pieces IH]; [contradiction|].
  intros _ H. inversion H as [|? ? Ha Hrest]; subst.
  destruct pieces as [|b pieces].
  - cbn [join]. unfold split. rewrite (splitNewline_line a Ha). reflexivity.
  - change (join (a :: b :: pieces)) with (a ++ String newline (join (b :: pieces))).
    unfold split at 1. rewrite (splitNewline_append a _ Ha).
    rewrite IH; [reflexivity | discriminate | exact Hrest].
Qed.

Lemma dotStar_line s :
  every notLineFeed s = true -> every notCarriageReturn s = true ->
  dotStar s = s.
Proof.
  induction s as [|c s IH]; cbn [dotStar every]; [reflexivity|].
  intros H1 H2. apply andb_true_iff in H1 as [Hn Hs1].
  apply andb_true_iff in H2 as [Hr Hs2].
  unfold notLineFeed in Hn. unfold notCarriageReturn in Hr.
  apply negb_true_iff in Hn, Hr. rewrite Hn, Hr, (IH Hs1 Hs2). reflexivity.
Qed.
(** *** The timestamps written *)

Lemma timestamp_append s groups r t :
  timestamp s = Some (groups, r) -> timestamp (s ++ t) = Some (groups, r ++ t).
Proof.
  destruct groups as [[min sec] ms]. intros H.
  apply LrcProperties.timestamp_shape in H as (-> & Hrest).
  apply LrcProperties.timestamp_shape. split; [|exact Hrest].
  rewrite !append_assoc. reflexivity.
Qed.

Lemma stampsChecked_fewer count :
  forall current k fewer,
    (fewer <= count)%nat ->
    stampsChecked current k count = true ->
    stampsChecked current k fewer = true.
Proof.
  induction count as [|count IH]; intros current k [|fewer] Hle H;
    try reflexivity; [lia|].
  cbn [stampsChecked] in *. apply andb_true_iff in H as [-> H].
  apply (IH _ _ fewer); [lia | exact H].
Qed.

(** The first 1715 timestamps (up to 99:59.50), checked one by one. *)
Lemma stamps_up_to_100_minutes : stampsChecked 0 0 1715 = true.
Proof. vm_compute. reflexivity. Qed.

Lemma lrcLinesFrom_checked lines :
  forall current k,
    stampsChecked current k (List.length lines) = true ->
    Forall plainLine lines ->
    exists lrcLines,
      lrcLinesFrom current lines = Some lrcLines /\
      Forall (fun l => hasTimestamp l = true) lrcLines /\
      Forall (fun l => every notLineFeed l = true) lrcLines /\
      map lineText lrcLines = lines /\
      map lineStart lrcLines = everyPerLine k (List.length lines).
Proof.
  induction lines as [|line lines IH]; intros current k Hc Hl.
  - exists []. repeat split; constructor.
  - cbn [List.length stampsChecked] in Hc. apply andb_true_iff in Hc as [Hk Hc].
    inversion Hl as [|? ? (Htrim & Hlf & Hcr) Hrest]; subst.
    destruct (IH _ _ Hc Hrest) as (more & Hmore & Hts & Hnl & Htext & Hstart).
    unfold stampCheck in Hk.
    destruct (toTimestamp current) as [ts|] eqn:Ets; [|discriminate].
    destruct (timestamp ts) as [[[[min sec] ms] rest]|] eqn:Ep; [|discriminate].
    apply andb_true_iff in Hk as [Hk Hts_lf].
    apply andb_true_iff in Hk as [Hempty Hsec].
    apply String.eqb_eq in Hempty. subst rest.
    apply FloatAxioms.Leibniz.eqb_spec in Hsec.
    pose proof (timestamp_append ts _ _ line Ep) as Hline. cbn [append] in Hline.
    exists ((ts ++ line) :: more). cbn [lrcLinesFrom]. rewrite Ets, Hmore.
    split; [reflexivity|]. split; [|split; [|split]].
    + constructor; [|exact Hts]. unfold hasTimestamp. rewrite Hline. reflexivity.
    + constructor; [|exact Hnl]. rewrite every_append, Hts_lf, Hlf. reflexivity.
    + cbn [map]. rewrite Htext. f_equal.
      unfold lineText, matchLine. rewrite Hline.
      rewrite (dotStar_line line Hlf Hcr). exact Htrim.
    + unfold everyPerLine in *. cbn [map List.length seq]. rewrite Hstart.
      f_equal. unfold lineStart, matchLine. rewrite Hline. exact Hsec.
Qed.

(** *** The lines used *)

Lemma usableLines_of_blank raw : trim raw = "" -> usableLines raw = [].
Proof.
  intros H. apply trim_empty in H. unfold usableLines.
  pose proof (split_every isSpace raw H) as Hp.
  induction Hp as [|piece pieces Hpiece _ IH]; cbn [map filter]; [reflexivity|].
  rewrite (trim_of_spaces piece Hpiece). cbn. exact IH.
Qed.

Lemma usableLines_trimmed raw :
  Forall (fun l => trim l = l /\ every notLineFeed l = true) (usableLines raw).
Proof.
  unfold usableLines. pose proof (split_no_line_feed raw) as Hp.
  induction Hp as [|piece pieces Hpiece _ IH]; cbn [map filter]; [constructor|].
  destruct (0 <? String.length (trim piece))%nat; [|exact IH].
  constructor; [|exact IH].
  split; [apply trim_idempotent | apply every_trim, Hpiece].
Qed.

(** X22.  The LRC text that the fallback builds is read back in full by
    [parseLRC].  The lyrics are a text of characters below U+0100, as all
    strings here: it holds no U+2028 or U+2029, at which the last group
    of the pattern of [parseLRC] would cut a line.  When such a text has
    between one and 1715 non-blank lines (so that the timestamps stay
    below 100 minutes) and no carriage return inside a line, the LRC text
    made from it parses back to exactly those lines, trimmed and in
    order, starting every 3.5 seconds from 0. *)
Theorem fallback_lrc_is_read_back_by_parseLRC (raw : string) :
  let lines := usableLines raw in
  lines <> [] ->
  (List.length lines <= 1715)%nat ->
  Forall (fun l => every notCarriageReturn l = true) lines ->
  exists lyricsLRC,
    lrcFromLyrics raw = Some (Resolved lyricsLRC) /\
    map text (parseLRC lyricsLRC) = lines /\
    map startTime (parseLRC lyricsLRC) = everyPerLine 0 (List.length lines).
Proof.
  cbv zeta. intros Hne Hlen Hcr.
  assert (Hplain : Forall plainLine (usableLines raw)).
  { pose proof (usableLines_trimmed raw) as Ht.
    rewrite Forall_forall in *. intros l Hl.
    destruct (Ht l Hl) as [H1 H2]. repeat split; auto. }
  destruct (lrcLinesFrom_checked (usableLines raw) 0 0
              (stampsChecked_fewer _ _ _ _ Hlen stamps_up_to_100_minutes) Hplain)
    as (lrcLines & Hlrc & Hts & Hnl & Htext & Hstart).
  assert (Hne' : lrcLines <> []).
  { intros ->. cbn in Htext. congruence. }
  exists (join lrcLines).
  assert (Hfields : map text (parseLRC (join lrcLines)) = usableLines raw /\
                    map startTime (parseLRC (join lrcLines))
                    = everyPerLine 0 (List.length (usableLines raw))).
  { unfold parseLRC. rewrite (split_join lrcLines Hne' Hnl).
    rewrite (HistoryProperties.filter_all hasTimestamp lrcLines Hts).
    destruct lrcLines as [|l ls]; [contradiction|].
    unfold Js.length.
    replace (Z.of_nat (List.length (l :: ls)) =? 0)%Z with false
      by (symmetry; apply Z.eqb_neq; cbn [List.length]; lia).
    destruct (LrcProperties.fixLastLine_fields (parseLines (l :: ls))) as [-> ->].
    destruct (LrcProperties.parseLines_fields (l :: ls) Hts) as [-> ->].
    split; assumption. }
  destruct Hfields as [Ht Hs].
  split; [|split; [exact Ht | exact Hs]].
  unfold lrcFromLyrics.
  destruct (String.length (trim raw) =? 0)%nat eqn:E.
  - apply Nat.eqb_eq in E. exfalso. apply Hne, usableLines_of_blank.
    destruct (trim raw); [reflexivity | discriminate].
  - destruct (usableLines raw) as [|u us] eqn:Eu; [contradiction|].
    cbn [List.length Nat.eqb]. rewrite Hlrc. reflexivity.
Qed.

Lemma fallback_lrc_is_read_back_by_parseLRC_witness :
  exists lyricsLRC,
    lrcFromLyrics plainLyrics = Some (Resolved lyricsLRC) /\
    map text (parseLRC lyricsLRC) = usableLines plainLyrics /\
    map startTime (parseLRC lyricsLRC)
    = everyPerLine 0 (List.length (usableLines plainLyrics)).
Proof.
  apply (fallback_lrc_is_read_back_by_parseLRC plainLyrics).
  - vm_compute. discriminate.
  - vm_compute. lia.
  - vm_compute. repeat constructor.
Defined.

(** The lyrics of the example: three lines, at 0, 3.5 and 7 seconds. *)
Example fallback_lyrics_sample :
  usableLines plainLyrics = ["Hello darkness"; "my old friend"; "I've come to talk"]
  /\ lrcFromLyrics plainLyrics
     = Some (Resolved ("[00:00.00]Hello darkness" ++ String newline
                       ("[00:03.50]my old friend" ++ String newline
                        "[00:07.00]I've come to talk")))
  /\ everyPerLine 0 3 = [0; 3.5; 7]%float.
Proof. repeat split; vm_compute; reflexivity. Qed.

Lemma splitNewline_every_conv p s :
  p newline = true ->
  every p (fst (splitNewline s)) = true ->
  Forall (fun piece => every p piece = true) (snd (splitNewline s)) ->
  every p s = true.
Proof.
  intros Hnl. induction s as [|c s IH]; cbn [splitNewline every fst snd];
    [reflexivity|].
  destruct (splitNewline s) as [piece pieces]. cbn [fst snd] in *.
  destruct (Ascii.eqb c newline) eqn:E; cbn [fst snd every].
  - intros _ H. inversion H; subst. apply Ascii.eqb_eq in E. subst c.
    rewrite Hnl. apply IH; assumption.
  - intros H Hps. apply andb_true_iff in H as [-> Hp]. apply IH; assumption.
Qed.

Lemma usableLines_nil raw : usableLines raw = [] -> trim raw = "".
Proof.
  intros H. apply trim_of_spaces.
  assert (Hpieces : Forall (fun piece => every isSpace piece = true) (split raw)).
  { unfold usableLines in H.
    induction (split raw) as [|piece pieces IH]; [constructor|].
    cbn [map filter] in H.
    destruct (trim piece) as [|c r] eqn:E; cbn in H; [|discriminate].
    constructor; [apply trim_empty, E | apply IH, H]. }
  unfold split in Hpieces. destruct (splitNewline raw) as [piece pieces] eqn:E.
  inversion Hpieces; subst.
  apply splitNewline_every_conv; [reflexivity | rewrite E .. ]; assumption.
Qed.

(** X24.  The conversion of the provider's lyrics fails in one way only:
    with "Fallback returned empty lyrics", and exactly on a text of white
    space.  Its second check, for a text without usable lines, can never
    fire, since a text that is not blank has a non-blank line. *)
Theorem fallback_fails_only_on_blank_lyrics (raw message : string) :
  lrcFromLyrics raw = Some (Rejected message) ->
  message = "Fallback returned empty lyrics" /\
  every isSpace raw = true /\ usableLines raw = [].
Proof.
  unfold lrcFromLyrics.
  destruct (String.length (trim raw) =? 0)%nat eqn:E.
  - intros H. injection H as <-. apply Nat.eqb_eq in E.
    assert (Ht : trim raw = "") by (destruct (trim raw); [reflexivity | discriminate]).
    split; [reflexivity|]. split; [apply trim_empty, Ht|].
    apply usableLines_of_blank, Ht.
  - destruct (usableLines raw) as [|l ls] eqn:Eu.
    + apply usableLines_nil in Eu. rewrite Eu in E. discriminate E.
    + cbn [List.length Nat.eqb].
      destruct (lrcLinesFrom 0 (l :: ls)); discriminate.
Qed.

Lemma fallback_fails_only_on_blank_lyrics_witness :
  every isSpace blankLyrics = true /\ usableLines blankLyrics = [].
Proof.
  destruct (fallback_fails_only_on_blank_lyrics blankLyrics
              "Fallback returned empty lyrics" eq_refl) as (_ & H1 & H2).
  split; assumption.
Defined.

(** The 1716th timestamp passes 100 minutes: its three digits of minutes
    are not a timestamp for [parseLRC], which drops the line. *)
Example fallback_timestamp_past_100_minutes :
  toTimestamp (Js.of_int 1715 * 3.5)%float = Some "[100:02.50]" /\
  hasTimestamp "[100:02.50]la la la" = false.
Proof. split; vm_compute; reflexivity. Qed.

End FallbackProperties.

(** ** Fetching the lyrics *)

Module FetchProperties.

Import App GeminiService Vocabulary.

Open Scope string_scope.

Lemma afterThrow_calls error fallback calls :
  snd (afterThrow error fallback calls) = S calls.
Proof.
  unfold afterThrow. destruct (fallback calls) as [lrc|m]; [reflexivity|].
  destruct error as [message|]; [destruct (includesTimeout message)|];
    reflexivity.
Qed.

Lemma afterThrow_result error fallback calls :
  match fallback calls with
  | FallbackLRC lyricsLRC =>
      fst (afterThrow error fallback calls) = Resolved lyricsLRC
  | FallbackThrew _ =>
      fst (afterThrow error fallback calls) = Rejected timeoutMessage \/
      fst (afterThrow error fallback calls) = Rejected unavailableMessage
  end.
Proof.
  unfold afterThrow. destruct (fallback calls) as [lrc|m]; [reflexivity|].
  destruct error as [message|]; [destruct (includesTimeout message)|];
    cbn; tauto.
Qed.

Ltac no_text := intros (? & ? & H & _); discriminate H.

(** X23.  [fetchLyrics] asks the fallback provider at most twice: never
    when Gemini answered with a text, and twice exactly when Gemini
    answered without a text and the first fallback request failed.  What
    it settles with is decided by the last request made: its lyrics, or,
    when it failed, one of the two error messages. *)
Theorem fetchLyrics_fallback_requests
  (gemini : GeminiOutcome) (fallback : nat -> FallbackOutcome) :
  let result := fst (fetchLyrics gemini fallback) in
  let calls := snd (fetchLyrics gemini fallback) in
  (calls <= 2)%nat /\
  (calls = 0%nat <->
   exists c rest, gemini = Responded (Some (String c rest))
                  /\ result = Resolved (trim (String c rest))) /\
  (calls = 2%nat <->
   (gemini = Responded None \/ gemini = Responded (Some "")) /\
   exists message, fallback 0%nat = FallbackThrew message) /\
  (forall calls', calls = S calls' ->
     match fallback calls' with
     | FallbackLRC lyricsLRC => result = Resolved lyricsLRC
     | FallbackThrew _ =>
         result = Rejected timeoutMessage \/ result = Rejected unavailableMessage
     end).
Proof.
  cbv zeta. unfold fetchLyrics.
  destruct gemini as [[[|c rest]|]|error].
  - destruct (fallback 0%nat) as [lrc|message] eqn:E0.
    + cbn [fst snd]. split; [lia|]. split; [|split].
      * split; [discriminate | no_text].
      * split; [discriminate | intros (_ & m & H); discriminate H].
      * intros calls' H. injection H as <-. rewrite E0. reflexivity.
    + rewrite afterThrow_calls. split; [lia|]. split; [|split].
      * split; [discriminate | no_text].
      * split; [|reflexivity]. intros _.
        split; [right; reflexivity | exists message; reflexivity].
      * intros calls' H. injection H as <-.
        apply (afterThrow_result (Some message) fallback 1).
  - cbn [fst snd]. split; [lia|]. split; [|split].
    + split; [|reflexivity]. intros _. exists c, rest. split; reflexivity.
    + split; [discriminate | intros ([H | H] & _); discriminate H].
    + intros calls' H. discriminate H.
  - destruct (fallback 0%nat) as [lrc|message] eqn:E0.
    + cbn [fst snd]. split; [lia|]. split; [|split].
      * split; [discriminate | no_text].
      * split; [discriminate | intros (_ & m & H); discriminate H].
      * intros calls' H. injection H as <-. rewrite E0. reflexivity.
    + rewrite afterThrow_calls. split; [lia|]. split; [|split].
      * split; [discriminate | no_text].
      * split; [|reflexivity]. intros _.
        split; [left; reflexivity | exists message; reflexivity].
      * intros calls' H. injection H as <-.
        apply (afterThrow_result (Some message) fallback 1).
  - rewrite afterThrow_calls. split; [lia|]. split; [|split].
    + split; [discriminate | no_text].
    + split; [discriminate | intros ([H | H] & _); discriminate H].
    + intros calls' H. injection H as <-.
      apply (afterThrow_result error fallback 0).
Qed.

(** An empty answer and a provider that is down: two requests, and the
    message for an unavailable service; a provider that fails once: the
    second request delivers the lyrics. *)
Example fetchLyrics_second_request :
  fetchLyrics (Responded None) fallbackDown = (Rejected unavailableMessage, 2%nat)
  /\ fetchLyrics (Responded (Some "")) fallbackFlaky
     = (Resolved "[00:00.00]la la la", 2%nat)
  /\ fetchLyrics (Threw (Some "Gemini API timeout")) fallbackDown
     = (Rejected timeoutMessage, 1%nat).
Proof. repeat split; vm_compute; reflexivity. Qed.

End FetchProperties.

(** ** What the game never does *)

Module FairPlay.

Import KaraokeScreen Vocabulary.

(** X25.  Points go only to a frame on which the singer is heard: a tick
    that changes the score ran with the microphone ready, a loudness
    above 0.05 and a pitch less than 20 away from the target, and it
    added 5 or 2. *)
Theorem points_only_when_heard
  (Math_sin : float -> float) (duration : float) (f : Frame) (st : GameState) :
  score (stateOf (gameTick Math_sin duration f st)) <> score st ->
  singing f = true /\
  (PrimFloat.abs (userPitch f - targetPitchAt Math_sin (newTimeOf f)) <? 20)%float
  = true /\
  Js.ge (newTimeOf f) duration = false /\
  (score (stateOf (gameTick Math_sin duration f st)) = score st + 5 \/
   score (stateOf (gameTick Math_sin duration f st)) = score st + 2).
Proof.
  unfold gameTick, scoringAndTomato, singing.
  destruct (Js.ge (newTimeOf f) duration); cbn [stateOf score];
    [intros Hne; contradiction Hne; reflexivity|].
  destruct (isMicReady f); cbn [andb score];
    [|intros Hne; contradiction Hne; reflexivity].
  destruct (Js.gt (micVolume f) 0.05); cbn [noSingingCounter score].
  - replace (0 >? 120) with false by reflexivity. cbn [score].
    destruct (_ <? 10)%float eqn:E10.
    + intros _. repeat split; [|left; reflexivity].
      apply (FloatOrder.ltb_trans _ 10 20 E10 eq_refl).
    + destruct (_ <? 20)%float eqn:E20.
      * intros _. repeat split. right. reflexivity.
      * intros Hne. contradiction Hne. reflexivity.
  - destruct (noSingingCounter st + 1 >? 120); cbn [score];
      intros Hne; contradiction Hne; reflexivity.
Qed.

Lemma points_only_when_heard_witness :
  singing sungFrame = true /\
  (PrimFloat.abs (userPitch sungFrame
                  - targetPitchAt (fun _ => 0%float) (newTimeOf sungFrame)) <? 20)%float
  = true.
Proof.
  destruct (points_only_when_heard (fun _ => 0%float) 100 sungFrame initialState
              ltac:(vm_compute; discriminate)) as (H1 & H2 & _).
  split; assumption.
Defined.

Lemma gameTick_unheardSince Math_sin duration f st st' past :
  unheardSince past st ->
  gameTick Math_sin duration f st = NextFrame st' ->
  unheardSince (past ++ [f]) st' /\
  (tomatoes st' <> tomatoes st ->
   exists before run,
     past ++ [f] = before ++ run /\
     Forall (fun g => singing g = false) run /\
     121 <= Js.length run).
Proof.
  intros (before & run & -> & Hrun & Hc) Htick.
  apply ScoringEngine.gameTick_NextFrame in Htick as [_ ->].
  assert (Hnil : forall s, 0 = noSingingCounter s ->
                           unheardSince ((before ++ run) ++ [f]) s).
  { intros s Hs. exists ((before ++ run) ++ [f]), [].
    rewrite app_nil_r. repeat split; [constructor | rewrite <- Hs; cbn; lia]. }
  assert (Hmore : singing f = false ->
                  (before ++ run) ++ [f] = before ++ (run ++ [f]) /\
                  Forall (fun g => singing g = false) (run ++ [f]) /\
                  Js.length (run ++ [f]) = Js.length run + 1).
  { intros Hf. rewrite app_assoc. split; [reflexivity|]. split.
    - apply Forall_app. split; [exact Hrun | repeat constructor; exact Hf].
    - unfold Js.length. rewrite length_app. cbn. lia. }
  unfold scoringAndTomato, singing in *.
  destruct (isMicReady f); cbn [andb] in *.
  - destruct (Js.gt (micVolume f) 0.05); cbn [noSingingCounter tomatoes] in *.
    + replace (0 >? 120) with false by reflexivity.
      cbn [noSingingCounter tomatoes]. split; [apply Hnil; reflexivity|].
      intros Hne. contradiction Hne. reflexivity.
    + destruct (Hmore eq_refl) as (Happ & Hall & Hlen).
      destruct (Z.gtb_spec (noSingingCounter st + 1) 120) as [Hgt|Hle];
        cbn [noSingingCounter tomatoes].
      * split; [apply Hnil; reflexivity|]. intros _.
        exists before, (run ++ [f]). repeat split; try assumption. lia.
      * split; [|intros Hne; contradiction Hne; reflexivity].
        exists before, (run ++ [f]). repeat split; try assumption.
        cbn [noSingingCounter]. lia.
  - destruct (Hmore eq_refl) as (Happ & Hall & Hlen).
    split; [|intros Hne; contradiction Hne; reflexivity].
    exists before, (run ++ [f]). repeat split; try assumption.
    cbn [noSingingCounter]. lia.
Qed.

Lemma gameLoop_unheardSince Math_sin duration frames :
  forall st st' past,
    unheardSince past st ->
    gameLoop Math_sin duration frames st = NextFrame st' ->
    unheardSince (past ++ frames) st'.
Proof.
  induction frames as [|f frames IH]; intros st st' past Hinv Hrun;
    cbn [gameLoop] in Hrun.
  - injection Hrun as <-. rewrite app_nil_r. exact Hinv.
  - destruct (gameTick Math_sin duration f st) as [st1|st1 sc] eqn:E;
      [|discriminate].
    destruct (gameTick_unheardSince _ _ _ _ _ _ Hinv E) as [Hinv1 _].
    replace (past ++ f :: frames) with ((past ++ [f]) ++ frames)
      by (rewrite <- app_assoc; reflexivity).
    apply (IH st1 st' _ Hinv1 Hrun).
Qed.

(** X26.  A tomato is never thrown at a singer who was just heard: when a
    tick of a session throws one, the frames up to it end with a run of at
    least 121 frames none of which was sung (each silent, or without the
    microphone). *)
Theorem tomato_only_after_121_unsung_ticks
  (Math_sin : float -> float) (duration : float)
  (frames : list Frame) (f : Frame) (st st' : GameState) :
  gameLoop Math_sin duration frames initialState = NextFrame st ->
  gameTick Math_sin duration f st = NextFrame st' ->
  tomatoes st' <> tomatoes st ->
  exists before run,
    frames ++ [f] = before ++ run /\
    Forall (fun g => singing g = false) run /\
    121 <= Js.length run.
Proof.
  intros Hrun Htick Hthrown.
  assert (Hinit : unheardSince [] initialState).
  { exists [], []. repeat split; [constructor | cbn; lia]. }
  pose proof (gameLoop_unheardSince _ _ _ _ _ _ Hinit Hrun) as Hinv.
  cbn [app] in Hinv.
  apply (gameTick_unheardSince _ _ _ _ _ _ Hinv Htick). exact Hthrown.
Qed.

Lemma tomato_only_after_121_unsung_ticks_witness :
  exists before run,
    (sungFrame :: repeat silentFrame 120) ++ [silentFrame] = before ++ run /\
    Forall (fun g => singing g = false) run /\
    121 <= Js.length run.
Proof.
  apply (tomato_only_after_121_unsung_ticks (fun _ => 0%float) 100
           (sungFrame :: repeat silentFrame 120) silentFrame
           {| currentTime := 1; score := 5; noSingingCounter := 120;
              tomatoes := [] |}
           {| currentTime := 1; score := 5; noSingingCounter := 0;
              tomatoes := [7%float] |}).
  - vm_compute. reflexivity.
  - vm_compute. reflexivity.
  - discriminate.
Defined.

End FairPlay.
